(** * myphysicslab: Timer, DisplayLine and PathObserver

    A shallow embedding of
      - [myphysicslab.lab.util.Timer]        (src/lab/view/DisplayLine.js, second unit),
      - [myphysicslab.lab.view.DisplayLine]  (src/lab/view/DisplayLine.js, first unit),
      - [myphysicslab.sims.roller.PathObserver] (src/sims/roller/PathObserver.js),
    and the properties of the specification that concern them.

    The Timer is embedded twice.
      - [Timer] is the Timer driven by a callback that leaves the Timer alone,
        on exact numbers.
      - [General] is the same code over any arithmetic, with a callback that
        may call the Timer's methods while it runs; [Binary64] is the
        arithmetic JavaScript has.  [Agreement] shows that [Timer] is [General]
        taken with exact numbers and a callback that leaves the Timer alone.

    Conventions of the embedding.
      - A JavaScript number of [Timer], [DisplayLine] and [PathObserver] is a
        [number]: NaN, the two infinities, or a finite value held as an exact
        rational.  The special cases of the arithmetic and of the comparisons
        are the IEEE ones; finite results are exact (no rounding), and the two
        zeros are not told apart.
      - [Util.systemTime()] is the external clock: every read of it is an
        argument of the operation that reads.
      - The browser's scheduling primitive ([setTimeout]/[requestAnimationFrame]
        and their cancel functions) is the [Host]: the handles it still has to
        fire, the next handle it hands out, and the trace of what was asked of it.
      - A user callback is an opaque name; invoking it appends [Call f] to the
        trace, and the callback returns normally.  In [Timer] it does not call
        the Timer's methods; in [General] what it does to the Timer is a
        parameter. *)

From Stdlib Require Import QArith Qround Lqa Lia ZArith List String Bool Permutation.
From Stdlib Require PrimFloat FloatOps SpecFloat.
Import ListNotations.

Set Implicit Arguments.

(* ------------------------------------------------------------------ *)
(** ** JavaScript numbers *)

Module JsNum.

Inductive number : Type :=
| NaN
| PosInf
| NegInf
| Fin (q : Q).

Definition Qltb (a b : Q) : bool := negb (Qle_bool b a).

(** Truncation toward zero, the integer part the [%] operator uses. *)
Definition Qtrunc (q : Q) : Z := Z.quot (Qnum q) (Zpos (Qden q)).

(** [a % b] on finite operands, [b] not zero: the remainder has the sign of
    the dividend and is exact. *)
Definition Qrem (a b : Q) : Q := a - b * inject_Z (Qtrunc (a / b)).

Definition num_neg (x : number) : number :=
  match x with
  | NaN => NaN
  | PosInf => NegInf
  | NegInf => PosInf
  | Fin q => Fin (- q)
  end.

Definition num_add (x y : number) : number :=
  match x, y with
  | NaN, _ | _, NaN => NaN
  | PosInf, NegInf | NegInf, PosInf => NaN
  | PosInf, _ | _, PosInf => PosInf
  | NegInf, _ | _, NegInf => NegInf
  | Fin a, Fin b => Fin (a + b)
  end.

(** [x - y] *)
Definition num_sub (x y : number) : number := num_add x (num_neg y).

(** [x * y] *)
Definition num_mul (x y : number) : number :=
  let inf_times (positive : bool) (q : Q) :=
    if Qeq_bool q 0 then NaN
    else if eqb positive (Qltb 0 q) then PosInf else NegInf in
  match x, y with
  | NaN, _ | _, NaN => NaN
  | PosInf, PosInf | NegInf, NegInf => PosInf
  | PosInf, NegInf | NegInf, PosInf => NegInf
  | PosInf, Fin q | Fin q, PosInf => inf_times true q
  | NegInf, Fin q | Fin q, NegInf => inf_times false q
  | Fin a, Fin b => Fin (a * b)
  end.

(** [x % y] *)
Definition num_rem (x y : number) : number :=
  match x, y with
  | NaN, _ | _, NaN => NaN
  | PosInf, _ | NegInf, _ => NaN
  | Fin a, PosInf | Fin a, NegInf => Fin a
  | Fin a, Fin b => if Qeq_bool b 0 then NaN else Fin (Qrem a b)
  end.

(** [Math.round(x)]: the nearest integer, halves going up. *)
Definition num_round (x : number) : number :=
  match x with
  | Fin q => Fin (inject_Z (Qfloor (q + (1 # 2))))
  | other => other
  end.

(** [x < y]; any comparison with NaN is false. *)
Definition num_ltb (x y : number) : bool :=
  match x, y with
  | NaN, _ | _, NaN => false
  | _, NegInf => false
  | PosInf, _ => false
  | NegInf, _ => true
  | Fin _, PosInf => true
  | Fin a, Fin b => Qltb a b
  end.

(** [x <= y] *)
Definition num_leb (x y : number) : bool :=
  match x, y with
  | NaN, _ | _, NaN => false
  | NegInf, _ => true
  | _, PosInf => true
  | PosInf, _ => false
  | Fin _, NegInf => false
  | Fin a, Fin b => Qle_bool a b
  end.

(** [x > y] and [x >= y] *)
Definition num_gtb (x y : number) : bool := num_ltb y x.
Definition num_geb (x y : number) : bool := num_leb y x.

(** [x == y] on numbers; NaN equals nothing. *)
Definition num_eqb (x y : number) : bool :=
  match x, y with
  | PosInf, PosInf | NegInf, NegInf => true
  | Fin a, Fin b => Qeq_bool a b
  | _, _ => false
  end.


Definition zero : number := Fin 0.

End JsNum.

Export JsNum.

(* ------------------------------------------------------------------ *)
(** ** The Timer and the scheduling primitive it rides on *)

Module Timer.

(** A handle of the scheduling primitive (the number [setTimeout] or
    [requestAnimationFrame] returns). *)
Definition handle := nat.

(** The name of a user callback, a [function()] of the program. *)
Definition callback := nat.

(** What the Timer asks of its surroundings, in the order it asks. *)
Inductive effect : Type :=
| Call (f : callback)
| SetTimeout (h : handle) (delay_ms : number)
| RequestAnimationFrame (h : handle)
| ClearTimeout (h : handle)
| CancelAnimationFrame (h : handle).

(** The scheduling primitive: [scheduled] are the ticks it still has to
    deliver, [next_handle] the handle its next request gets, [trace] the
    effects so far, the latest first. *)
Record Host : Type := mkHost {
  next_handle : handle;
  scheduled : list handle;
  trace : list effect
}.

Record Timer : Type := mkTimer {
  legacy_ : bool;
  timeoutID_ : option handle;
  callBack_ : option callback;
  period_ : number;
  firing_ : bool;
  fired_sys_ : number;
  delta_ : number
}.

Record World : Type := mkWorld {
  timer : Timer;
  host : Host
}.

(** [new Timer(opt_legacy)]; [has_raf] is [goog.isFunction(requestAnimationFrame)]. *)
Definition new_Timer (opt_legacy has_raf : bool) : Timer :=
  {| legacy_ := opt_legacy || negb has_raf;
     timeoutID_ := None;
     callBack_ := None;
     period_ := Fin 0;
     firing_ := false;
     fired_sys_ := NaN;
     delta_ := Fin 0 |}.

Definition new_Host : Host :=
  {| next_handle := 1%nat; scheduled := []; trace := [] |}.

Definition init (opt_legacy has_raf : bool) : World :=
  {| timer := new_Timer opt_legacy has_raf; host := new_Host |}.

(** Field assignments. *)
Definition set_timeoutID (v : option handle) (t : Timer) : Timer :=
  mkTimer (legacy_ t) v (callBack_ t) (period_ t) (firing_ t) (fired_sys_ t) (delta_ t).
Definition set_callBack (v : option callback) (t : Timer) : Timer :=
  mkTimer (legacy_ t) (timeoutID_ t) v (period_ t) (firing_ t) (fired_sys_ t) (delta_ t).
Definition set_period (v : number) (t : Timer) : Timer :=
  mkTimer (legacy_ t) (timeoutID_ t) (callBack_ t) v (firing_ t) (fired_sys_ t) (delta_ t).
Definition set_firing (v : bool) (t : Timer) : Timer :=
  mkTimer (legacy_ t) (timeoutID_ t) (callBack_ t) (period_ t) v (fired_sys_ t) (delta_ t).
Definition set_fired_sys (v : number) (t : Timer) : Timer :=
  mkTimer (legacy_ t) (timeoutID_ t) (callBack_ t) (period_ t) (firing_ t) v (delta_ t).
Definition set_delta (v : number) (t : Timer) : Timer :=
  mkTimer (legacy_ t) (timeoutID_ t) (callBack_ t) (period_ t) (firing_ t) (fired_sys_ t) v.

(** The host's side of the effects. *)
Definition log (e : effect) (h : Host) : Host :=
  mkHost (next_handle h) (scheduled h) (e :: trace h).

(** [setTimeout(fn, delay_ms)] *)
Definition setTimeout (delay_ms : number) (h : Host) : handle * Host :=
  let id := next_handle h in
  (id, mkHost (S id) (id :: scheduled h) (SetTimeout id delay_ms :: trace h)).

(** [requestAnimationFrame(fn)] *)
Definition requestAnimationFrame (h : Host) : handle * Host :=
  let id := next_handle h in
  (id, mkHost (S id) (id :: scheduled h) (RequestAnimationFrame id :: trace h)).

(** [clearTimeout(id)] and [cancelAnimationFrame(id)]: the tick, if still
    scheduled, is dropped. *)
Definition clearTimeout (id : handle) (h : Host) : Host :=
  mkHost (next_handle h) (remove Nat.eq_dec id (scheduled h)) (ClearTimeout id :: trace h).
Definition cancelAnimationFrame (id : handle) (h : Host) : Host :=
  mkHost (next_handle h) (remove Nat.eq_dec id (scheduled h))
         (CancelAnimationFrame id :: trace h).

(** The constant [1E-7] of [startFiring]. *)
Definition epsilon : Q := 1 # 10000000.

(** [Timer.prototype.timerCallback]; [now] is its read of [Util.systemTime()]. *)
Definition timerCallback (w : World) (now : Q) : World :=
  let t := timer w in
  match callBack_ t with
  | None => w
  | Some f =>
    let elapsed := num_sub (Fin now) (num_sub (fired_sys_ t) (delta_ t)) in
    let w1 :=
      if num_geb elapsed (period_ t) then
        mkWorld
          (set_delta (if num_gtb (period_ t) zero
                      then num_rem elapsed (period_ t) else Fin 0)
             (set_fired_sys (Fin now) t))
          (log (Call f) (host w))
      else w in
    let t1 := timer w1 in
    if legacy_ t1 then
      let delay_ms :=
        if num_gtb (period_ t1) zero
        then num_round (num_mul (period_ t1) (Fin 1000)) else Fin 17 in
      let (id, h2) := setTimeout delay_ms (host w1) in
      mkWorld (set_timeoutID (Some id) t1) h2
    else
      let (id, h2) := requestAnimationFrame (host w1) in
      mkWorld (set_timeoutID (Some id) t1) h2
  end.

(** [Timer.prototype.getPeriod] and [Timer.prototype.isFiring] *)
Definition getPeriod (w : World) : number := period_ (timer w).
Definition isFiring (w : World) : bool := firing_ (timer w).

(** [Timer.prototype.stopFiring] *)
Definition stopFiring (w : World) : World :=
  let t1 := set_firing false (timer w) in
  let w2 :=
    match timeoutID_ t1 with
    | Some id =>
      mkWorld (set_timeoutID None t1)
              (if legacy_ t1 then clearTimeout id (host w)
               else cancelAnimationFrame id (host w))
    | None => mkWorld t1 (host w)
    end in
  mkWorld (set_delta (Fin 0) (set_fired_sys NaN (timer w2))) (host w2).

(** [Timer.prototype.setCallBack] *)
Definition setCallBack (w : World) (callBack : option callback) : World :=
  let w1 := stopFiring w in
  mkWorld (set_callBack callBack (timer w1)) (host w1).

(** How a call ends: it returns, or it throws [new Error()]. *)
Inductive outcome : Type := Returned | Threw.

(** [Timer.prototype.setPeriod] *)
Definition setPeriod (w : World) (period : number) : outcome * World :=
  if num_ltb period zero then (Threw, w)
  else (Returned, mkWorld (set_period period (timer w)) (host w)).

(** [Timer.prototype.startFiring]; [now0] is its own read of the clock,
    [now1] the read of the [timerCallback] it calls. *)
Definition startFiring (w : World) (now0 now1 : Q) : World :=
  if negb (firing_ (timer w)) then
    let t1 := set_firing true (timer w) in
    let t2 := set_delta (Fin 0) t1 in
    let t3 := set_fired_sys
                (num_sub (num_sub (Fin now0) (period_ t2)) (Fin epsilon)) t2 in
    timerCallback (mkWorld t3 (host w)) now1
  else w.

(** The scheduling primitive delivers the tick [h]: only a tick it still
    holds is delivered, and delivering it uses it up. *)
Definition deliver (w : World) (h : handle) (now : Q) : World :=
  if existsb (Nat.eqb h) (scheduled (host w)) then
    let hst := host w in
    timerCallback
      (mkWorld (timer w)
               (mkHost (next_handle hst) (remove Nat.eq_dec h (scheduled hst)) (trace hst)))
      now
  else w.

(** What can happen to a Timer. [Forced] runs the tick handler although
    nothing was scheduled (a tick that fires in spite of its cancellation). *)
Inductive event : Type :=
| SetPeriod (period : number)
| SetCallBack (callBack : option callback)
| StartFiring (now0 now1 : Q)
| StopFiring
| Tick (h : handle) (now : Q)
| Forced (now : Q).

Definition step (w : World) (e : event) : World :=
  match e with
  | SetPeriod p => snd (setPeriod w p)
  | SetCallBack cb => setCallBack w cb
  | StartFiring now0 now1 => startFiring w now0 now1
  | StopFiring => stopFiring w
  | Tick h now => deliver w h now
  | Forced now => timerCallback w now
  end.

Definition run (w : World) (es : list event) : World := fold_left step es w.

Definition is_start (e : event) : bool :=
  match e with StartFiring _ _ => true | _ => false end.


(** The callbacks invoked so far, the latest first. *)
Fixpoint calls (tr : list effect) : list callback :=
  match tr with
  | [] => []
  | Call f :: tr' => f :: calls tr'
  | _ :: tr' => calls tr'
  end.

(** The scheduling requests made so far, the latest first. *)
Fixpoint requests (tr : list effect) : list handle :=
  match tr with
  | [] => []
  | SetTimeout h _ :: tr' => h :: requests tr'
  | RequestAnimationFrame h :: tr' => h :: requests tr'
  | _ :: tr' => requests tr'
  end.

End Timer.

(* ------------------------------------------------------------------ *)
(** ** Facts about numbers *)

Module JsNumFacts.




(** NaN is contagious and compares to nothing. *)
Lemma num_sub_NaN_l (y : number) : num_sub NaN y = NaN.
Proof. reflexivity. Qed.

Lemma num_sub_NaN_r (x : number) : num_sub x NaN = NaN.
Proof. destruct x; reflexivity. Qed.

Lemma num_geb_NaN_l (y : number) : num_geb NaN y = false.
Proof. destruct y; reflexivity. Qed.

Lemma num_ltb_geb (x y : number) : num_ltb x y = true -> num_geb x y = false.
Proof.
  destruct x, y; simpl; try congruence; unfold num_geb; simpl; try congruence.
  unfold Qltb. rewrite negb_true_iff. auto.
Qed.


Lemma num_eqb_zero_not_gtb (p : number) :
  num_eqb p zero = true -> num_gtb p zero = false.
Proof.
  destruct p; simpl; try congruence. unfold num_gtb, zero; simpl. intro H.
  apply Qeq_bool_iff in H. unfold Qltb. rewrite negb_false_iff.
  apply Qle_bool_iff. lra.
Qed.

End JsNumFacts.

Import JsNumFacts.

(* ------------------------------------------------------------------ *)
(** ** The tick handler *)

Module TimerFacts.
Import Timer.

(** The time elapsed since the corrected baseline, as the handler computes it. *)
Definition elapsed_at (t : Timer) (now : Q) : number :=
  num_sub (Fin now) (num_sub (fired_sys_ t) (delta_ t)).

(** The bookkeeping the handler does when it invokes the callback. *)
Definition fired_at (t : Timer) (now : Q) : Timer :=
  set_delta (if num_gtb (period_ t) zero
             then num_rem (elapsed_at t now) (period_ t) else Fin 0)
            (set_fired_sys (Fin now) t).

(** The last statement of the handler: one request to the primitive. *)
Definition reschedule (w : World) : World :=
  let id := next_handle (host w) in
  let req :=
    if legacy_ (timer w) then
      SetTimeout id (if num_gtb (period_ (timer w)) zero
                     then num_round (num_mul (period_ (timer w)) (Fin 1000))
                     else Fin 17)
    else RequestAnimationFrame id in
  mkWorld (set_timeoutID (Some id) (timer w))
          (mkHost (S id) (id :: scheduled (host w)) (req :: trace (host w))).

Lemma timerCallback_unfold (w : World) (now : Q) :
  timerCallback w now =
  match callBack_ (timer w) with
  | None => w
  | Some f =>
    reschedule (if num_geb (elapsed_at (timer w) now) (period_ (timer w))
                then mkWorld (fired_at (timer w) now) (log (Call f) (host w))
                else w)
  end.
Proof.
  unfold timerCallback, reschedule, elapsed_at, fired_at.
  destruct (callBack_ (timer w)); [|reflexivity].
  destruct (num_geb _ _); simpl; destruct (legacy_ (timer w)); reflexivity.
Qed.

Lemma timerCallback_fires (w : World) (now : Q) (f : callback) :
  callBack_ (timer w) = Some f ->
  num_geb (elapsed_at (timer w) now) (period_ (timer w)) = true ->
  timerCallback w now =
  reschedule (mkWorld (fired_at (timer w) now) (log (Call f) (host w))).
Proof. intros Hf He. rewrite timerCallback_unfold, Hf, He. reflexivity. Qed.


Lemma timerCallback_no_callback (w : World) (now : Q) :
  callBack_ (timer w) = None -> timerCallback w now = w.
Proof. intros Hf. rewrite timerCallback_unfold, Hf. reflexivity. Qed.

(** What one request to the primitive changes. *)
Lemma reschedule_spec (w : World) :
  let id := next_handle (host w) in
  timer (reschedule w) = set_timeoutID (Some id) (timer w) /\
  scheduled (host (reschedule w)) = id :: scheduled (host w) /\
  next_handle (host (reschedule w)) = S id /\
  requests (trace (host (reschedule w))) = id :: requests (trace (host w)) /\
  calls (trace (host (reschedule w))) = calls (trace (host w)).
Proof.
  unfold reschedule. simpl. destruct (legacy_ (timer w)); simpl; auto.
Qed.


(** A Timer with period 1 just started at time 10: it fired at once, with an
    overshoot of [epsilon], and waits for tick 1. *)
Definition sample_firing : World :=
  startFiring (snd (setPeriod (setCallBack (init false true) (Some 7%nat)) (Fin 1)))
              10 10.


(* ------------------------------------------------------------------ *)
(** ** setPeriod *)

(** C3. [setPeriod(seconds)] with [seconds < 0] throws and leaves the whole
    state as it was, so [getPeriod()] still returns the old period; with
    [seconds >= 0] it returns normally and [getPeriod()] then returns
    [seconds]. *)
Theorem setPeriod_spec (w : World) (seconds : number) :
  (num_ltb seconds zero = true ->
     setPeriod w seconds = (Threw, w) /\
     getPeriod (snd (setPeriod w seconds)) = getPeriod w) /\
  (num_geb seconds zero = true ->
     fst (setPeriod w seconds) = Returned /\
     getPeriod (snd (setPeriod w seconds)) = seconds).
Proof.
  unfold setPeriod. split; intro H.
  - rewrite H. auto.
  - assert (Hlt : num_ltb seconds zero = false).
    { destruct (num_ltb seconds zero) eqn:E; auto.
      apply num_ltb_geb in E. congruence. }
    rewrite Hlt. auto.
Qed.

Lemma setPeriod_spec_witness :
  setPeriod sample_firing (Fin (-1)) = (Threw, sample_firing) /\
  getPeriod (snd (setPeriod sample_firing (Fin (-1)))) = Fin 1 /\
  fst (setPeriod sample_firing (Fin (1 # 4))) = Returned /\
  getPeriod (snd (setPeriod sample_firing (Fin (1 # 4)))) = Fin (1 # 4).
Proof.
  destruct (setPeriod_spec sample_firing (Fin (-1))) as (Hneg & _).
  destruct (setPeriod_spec sample_firing (Fin (1 # 4))) as (_ & Hpos).
  destruct (Hneg eq_refl) as (H1 & H2).
  destruct (Hpos eq_refl) as (H3 & H4).
  repeat split; assumption.
Defined.

(* ------------------------------------------------------------------ *)
(** ** stopFiring and setCallBack *)

Lemma stopFiring_timer (w : World) :
  timer (stopFiring w) =
  mkTimer (legacy_ (timer w)) None (callBack_ (timer w)) (period_ (timer w))
          false NaN (Fin 0).
Proof.
  unfold stopFiring, set_delta, set_fired_sys, set_timeoutID, set_firing. cbn.
  destruct (timeoutID_ (timer w)); reflexivity.
Qed.

Lemma stopFiring_host (w : World) :
  scheduled (host (stopFiring w)) =
    match timeoutID_ (timer w) with
    | Some id => remove Nat.eq_dec id (scheduled (host w))
    | None => scheduled (host w)
    end /\
  calls (trace (host (stopFiring w))) = calls (trace (host w)) /\
  requests (trace (host (stopFiring w))) = requests (trace (host w)) /\
  next_handle (host (stopFiring w)) = next_handle (host w).
Proof.
  unfold stopFiring. simpl.
  destruct (timeoutID_ (timer w)); simpl; auto.
  destruct (legacy_ (timer w)); simpl; auto.
Qed.

(** C7. [setCallBack(fn)], for [fn] a callback or [null], first does all of
    [stopFiring] - the recorded tick is cancelled (it is no longer among the
    scheduled ones), [firing_] is false, [fired_sys_] is NaN and [delta_] is 0,
    no callback is invoked - and then installs [fn]; so [isFiring()] is false
    afterwards, whatever the state before (in particular while firing, and
    for [fn = null]). *)
Theorem setCallBack_spec (w : World) (fn : option callback) :
  let w' := setCallBack w fn in
  w' = mkWorld (set_callBack fn (timer (stopFiring w))) (host (stopFiring w)) /\
  isFiring w' = false /\
  timeoutID_ (timer w') = None /\
  (forall id, timeoutID_ (timer w) = Some id -> ~ In id (scheduled (host w'))) /\
  fired_sys_ (timer w') = NaN /\
  delta_ (timer w') = Fin 0 /\
  callBack_ (timer w') = fn /\
  period_ (timer w') = period_ (timer w) /\
  legacy_ (timer w') = legacy_ (timer w) /\
  calls (trace (host w')) = calls (trace (host w)) /\
  requests (trace (host w')) = requests (trace (host w)).
Proof.
  intro w'. subst w'. unfold setCallBack, isFiring.
  destruct (stopFiring_host w) as (Hs & Hc & Hr & _).
  cbn [timer host]. rewrite stopFiring_timer, Hc, Hr, Hs.
  repeat split.
  intros id Hid. rewrite Hid. apply remove_In.
Qed.

(* ------------------------------------------------------------------ *)
(** ** After stopFiring: the NaN baseline *)

(** With [fired_sys_] NaN the elapsed time is NaN, the test [elapsed >= period_]
    is false, and the handler invokes nothing and keeps the baseline. *)
Lemma timerCallback_NaN_baseline (w : World) (now : Q) :
  fired_sys_ (timer w) = NaN ->
  fired_sys_ (timer (timerCallback w now)) = NaN /\
  calls (trace (host (timerCallback w now))) = calls (trace (host w)).
Proof.
  intro Hnan. rewrite timerCallback_unfold.
  destruct (callBack_ (timer w)) as [f|]; [|auto].
  unfold elapsed_at. rewrite Hnan, num_sub_NaN_l, num_sub_NaN_r, num_geb_NaN_l.
  destruct (reschedule_spec w) as (Ht & _ & _ & _ & Hc).
  rewrite Ht, Hc. auto.
Qed.

Lemma step_NaN_baseline (w : World) (e : event) :
  is_start e = false ->
  fired_sys_ (timer w) = NaN ->
  fired_sys_ (timer (step w e)) = NaN /\
  calls (trace (host (step w e))) = calls (trace (host w)).
Proof.
  intros He Hnan. destruct e as [p|cb|n0 n1| |h now|now];
    cbn [step is_start] in *; try discriminate.
  - unfold setPeriod. destruct (num_ltb p zero); simpl; auto.
  - unfold setCallBack. cbn [timer host]. rewrite stopFiring_timer.
    destruct (stopFiring_host w) as (_ & Hc & _). auto.
  - rewrite stopFiring_timer. destruct (stopFiring_host w) as (_ & Hc & _). auto.
  - unfold deliver. destruct (existsb _ _); [|auto].
    apply (timerCallback_NaN_baseline
             (mkWorld (timer w)
                (mkHost (next_handle (host w))
                        (remove Nat.eq_dec h (scheduled (host w)))
                        (trace (host w)))) now Hnan).
  - apply timerCallback_NaN_baseline; assumption.
Qed.

Lemma run_NaN_baseline (es : list event) (w : World) :
  forallb (fun e => negb (is_start e)) es = true ->
  fired_sys_ (timer w) = NaN ->
  fired_sys_ (timer (run w es)) = NaN /\
  calls (trace (host (run w es))) = calls (trace (host w)).
Proof.
  revert w. induction es as [|e es IH]; intros w Hes Hnan; simpl in *; auto.
  apply andb_true_iff in Hes. destruct Hes as [He Hes].
  apply negb_true_iff in He.
  destruct (step_NaN_baseline w e He Hnan) as (Hn1 & Hc1).
  destruct (IH (step w e) Hes Hn1) as (Hn2 & Hc2).
  split; congruence.
Qed.

(* ------------------------------------------------------------------ *)
(** ** startFiring *)

(** The state [startFiring] hands to the tick handler. *)
Definition armed (w : World) (now0 : Q) : World :=
  mkWorld
    (set_fired_sys (num_sub (num_sub (Fin now0) (period_ (timer w))) (Fin epsilon))
       (set_delta (Fin 0) (set_firing true (timer w))))
    (host w).

Lemma startFiring_unfold (w : World) (now0 now1 : Q) :
  startFiring w now0 now1 =
  if firing_ (timer w) then w else timerCallback (armed w now0) now1.
Proof. unfold startFiring, armed. destruct (firing_ (timer w)); reflexivity. Qed.

(* ------------------------------------------------------------------ *)
(** ** stopFiring on an idle Timer *)

Lemma stopFiring_idle (w : World) :
  firing_ (timer w) = false -> timeoutID_ (timer w) = None ->
  fired_sys_ (timer w) = NaN -> delta_ (timer w) = Fin 0 ->
  stopFiring w = w.
Proof.
  destruct w as [[l id cb p fi fs d] hst]. simpl. intros -> -> -> ->.
  reflexivity.
Qed.

(* ------------------------------------------------------------------ *)
(** ** The range of the drift *)





End TimerFacts.

(* ------------------------------------------------------------------ *)
(** ** More on the Timer: what its operations keep and never do *)

Module TimerMore.
Import Timer TimerFacts.

(** What the tick handler never touches. *)
Lemma timerCallback_keeps (w : World) (now : Q) :
  period_ (timer (timerCallback w now)) = period_ (timer w) /\
  legacy_ (timer (timerCallback w now)) = legacy_ (timer w) /\
  callBack_ (timer (timerCallback w now)) = callBack_ (timer w) /\
  firing_ (timer (timerCallback w now)) = firing_ (timer w).
Proof.
  rewrite timerCallback_unfold.
  destruct (callBack_ (timer w)) as [f|] eqn:Hf; [|auto].
  destruct (num_geb (elapsed_at (timer w) now) (period_ (timer w)));
    match goal with |- context [reschedule ?x] =>
      destruct (reschedule_spec x) as (Ht & _) end;
    rewrite Ht; simpl; auto.
Qed.

Lemma deliver_cases (w : World) (h : handle) (now : Q) :
  deliver w h now = w \/
  deliver w h now =
    timerCallback
      (mkWorld (timer w)
         (mkHost (next_handle (host w))
                 (remove Nat.eq_dec h (scheduled (host w)))
                 (trace (host w)))) now.
Proof. unfold deliver. destruct (existsb _ _); auto. Qed.

Lemma startFiring_cases (w : World) (now0 now1 : Q) :
  startFiring w now0 now1 = w \/
  startFiring w now0 now1 = timerCallback (armed w now0) now1.
Proof. rewrite startFiring_unfold. destruct (firing_ (timer w)); auto. Qed.

(** Every operation leaves [legacy_] alone. *)
Lemma step_legacy (w : World) (e : event) :
  legacy_ (timer (step w e)) = legacy_ (timer w).
Proof.
  destruct e as [p|cb|n0 n1| |h now|now]; cbn [step].
  - unfold setPeriod. destruct (num_ltb p zero); reflexivity.
  - unfold setCallBack. cbn [timer]. rewrite stopFiring_timer. reflexivity.
  - destruct (startFiring_cases w n0 n1) as [-> | ->]; [reflexivity|].
    destruct (timerCallback_keeps (armed w n0) n1) as (_ & Hl & _). exact Hl.
  - rewrite stopFiring_timer. reflexivity.
  - destruct (deliver_cases w h now) as [-> | ->]; [reflexivity|].
    match goal with |- context [timerCallback ?x now] =>
      destruct (timerCallback_keeps x now) as (_ & Hl & _) end. exact Hl.
  - destruct (timerCallback_keeps w now) as (_ & Hl & _). exact Hl.
Qed.

(* ------------------------------------------------------------------ *)
(** *** The period is never negative *)

Lemma step_period_not_negative (w : World) (e : event) :
  num_ltb (period_ (timer w)) zero = false ->
  num_ltb (period_ (timer (step w e))) zero = false.
Proof.
  intro Hw. destruct e as [p|cb|n0 n1| |h now|now]; cbn [step].
  - unfold setPeriod. destruct (num_ltb p zero) eqn:Hp; simpl; assumption.
  - unfold setCallBack. cbn [timer]. rewrite stopFiring_timer. exact Hw.
  - destruct (startFiring_cases w n0 n1) as [-> | ->]; [exact Hw|].
    destruct (timerCallback_keeps (armed w n0) n1) as (Hp & _).
    rewrite Hp. exact Hw.
  - rewrite stopFiring_timer. exact Hw.
  - destruct (deliver_cases w h now) as [-> | ->]; [exact Hw|].
    match goal with |- context [timerCallback ?x now] =>
      destruct (timerCallback_keeps x now) as (Hp & _) end.
    rewrite Hp. exact Hw.
  - destruct (timerCallback_keeps w now) as (Hp & _). rewrite Hp. exact Hw.
Qed.

(** Whatever is done to a Timer from its construction on - operations, ticks,
    forced runs of the handler, [setPeriod] calls that throw - [getPeriod()]
    is never a negative number (it can be NaN: [setPeriod(NaN)] is let
    through). *)
Theorem period_never_negative (opt_legacy has_raf : bool) (es : list event) :
  num_ltb (getPeriod (run (init opt_legacy has_raf) es)) zero = false.
Proof.
  unfold getPeriod.
  assert (H : forall w, num_ltb (period_ (timer w)) zero = false ->
                        num_ltb (period_ (timer (run w es))) zero = false).
  { induction es as [|e es IH]; intros w Hw; simpl; [exact Hw|].
    apply IH, step_period_not_negative, Hw. }
  apply H. reflexivity.
Qed.

(* ------------------------------------------------------------------ *)
(** *** stopFiring twice *)

(** A second [stopFiring()] changes nothing at all: no further cancel request
    goes to the primitive.  So [setCallBack] after [stopFiring] is
    [setCallBack] alone. *)
Theorem stopFiring_twice (w : World) (cb : option callback) :
  stopFiring (stopFiring w) = stopFiring w /\
  setCallBack (stopFiring w) cb = setCallBack w cb.
Proof.
  assert (H : stopFiring (stopFiring w) = stopFiring w).
  { apply stopFiring_idle; rewrite stopFiring_timer; reflexivity. }
  split; [exact H|]. unfold setCallBack. rewrite H. reflexivity.
Qed.

(* ------------------------------------------------------------------ *)
(** *** startFiring with no callback *)

(** [startFiring()] on an idle Timer that has no callback turns [isFiring()]
    true and does nothing else: nothing is asked of the primitive, no tick is
    scheduled.  A [setCallBack(f)] after it stops the Timer again, and [f] is
    then never invoked, by ticks or forced runs, until the next
    [startFiring()]. *)
Theorem startFiring_without_callback (w : World) (now0 now1 : Q)
    (f : callback) (es : list event) :
  callBack_ (timer w) = None ->
  firing_ (timer w) = false ->
  forallb (fun e => negb (is_start e)) es = true ->
  let w1 := startFiring w now0 now1 in
  let w2 := setCallBack w1 (Some f) in
  isFiring w1 = true /\
  host w1 = host w /\
  timeoutID_ (timer w1) = timeoutID_ (timer w) /\
  isFiring w2 = false /\
  calls (trace (host (run w2 es))) = calls (trace (host w)).
Proof.
  intros Hcb Hidle Hes w1 w2.
  assert (Hw1 : w1 = armed w now0).
  { subst w1. rewrite startFiring_unfold, Hidle.
    apply timerCallback_no_callback. exact Hcb. }
  assert (Hnan : fired_sys_ (timer w2) = NaN).
  { subst w2. unfold setCallBack. cbn [timer]. rewrite stopFiring_timer.
    reflexivity. }
  destruct (run_NaN_baseline es w2 Hes Hnan) as (_ & Hc).
  rewrite Hc. subst w2. unfold setCallBack, isFiring. cbn [timer host].
  rewrite stopFiring_timer. destruct (stopFiring_host w1) as (_ & Hc1 & _).
  rewrite Hc1, Hw1. repeat split.
Qed.

Lemma startFiring_without_callback_witness :
  isFiring (startFiring (init false true) 10 10) = true /\
  scheduled (host (startFiring (init false true) 10 10)) = [] /\
  calls (trace (host
    (run (setCallBack (startFiring (init false true) 10 10) (Some 7%nat))
         (Forced 11 :: Tick 1%nat 12 :: SetPeriod (Fin 0) :: Forced 13 :: nil))))
    = [].
Proof.
  destruct (@startFiring_without_callback (init false true) 10 10 7%nat
              (Forced 11 :: Tick 1%nat 12 :: SetPeriod (Fin 0) :: Forced 13 :: nil)
              eq_refl eq_refl eq_refl) as (H1 & H2 & _ & _ & H5).
  split; [exact H1|]. split; [rewrite H2; reflexivity | exact H5].
Defined.

(* ------------------------------------------------------------------ *)
(** *** One scheduling interface per Timer *)

(** The effects a legacy Timer may have, and those a modern one may have. *)
Definition effect_fits (legacy : bool) (e : effect) : bool :=
  match e with
  | Call _ => true
  | SetTimeout _ _ | ClearTimeout _ => legacy
  | RequestAnimationFrame _ | CancelAnimationFrame _ => negb legacy
  end.

Definition disciplined (w : World) : Prop :=
  forallb (effect_fits (legacy_ (timer w))) (trace (host w)) = true.

Lemma disciplined_reschedule (w : World) : disciplined w -> disciplined (reschedule w).
Proof.
  unfold disciplined, reschedule. cbn [timer host trace legacy_ set_timeoutID].
  intro H. destruct (legacy_ (timer w)); cbn [forallb effect_fits negb andb];
    exact H.
Qed.

Lemma disciplined_timerCallback (w : World) (now : Q) :
  disciplined w -> disciplined (timerCallback w now).
Proof.
  intro H. rewrite timerCallback_unfold.
  destruct (callBack_ (timer w)) as [f|]; [|exact H].
  apply disciplined_reschedule.
  destruct (num_geb (elapsed_at (timer w) now) (period_ (timer w))); exact H.
Qed.

Lemma disciplined_stopFiring (w : World) : disciplined w -> disciplined (stopFiring w).
Proof.
  unfold disciplined. rewrite stopFiring_timer. cbn [legacy_].
  unfold stopFiring. cbn [timer host set_firing timeoutID_ legacy_].
  intro H. destruct (timeoutID_ (timer w)) as [id|]; cbn [host]; [|exact H].
  destruct (legacy_ (timer w)); cbn [clearTimeout cancelAnimationFrame trace
    forallb effect_fits negb andb]; exact H.
Qed.

Lemma disciplined_step (w : World) (e : event) :
  disciplined w -> disciplined (step w e).
Proof.
  intro H. destruct e as [p|cb|n0 n1| |h now|now]; cbn [step].
  - unfold setPeriod. destruct (num_ltb p zero); exact H.
  - apply disciplined_stopFiring in H. exact H.
  - destruct (startFiring_cases w n0 n1) as [-> | ->]; [exact H|].
    apply disciplined_timerCallback. exact H.
  - apply disciplined_stopFiring. exact H.
  - destruct (deliver_cases w h now) as [-> | ->]; [exact H|].
    apply disciplined_timerCallback. exact H.
  - apply disciplined_timerCallback. exact H.
Qed.

(** A Timer keeps to the scheduling interface chosen at construction: in
    legacy mode ([opt_legacy], or no [requestAnimationFrame]) it only ever
    calls [setTimeout] and [clearTimeout], otherwise only
    [requestAnimationFrame] and [cancelAnimationFrame]; so a handle is never
    cancelled through the interface that did not issue it. *)
Theorem one_scheduling_interface (opt_legacy has_raf : bool) (es : list event) :
  let w := run (init opt_legacy has_raf) es in
  legacy_ (timer w) = (opt_legacy || negb has_raf)%bool /\
  forallb (effect_fits (opt_legacy || negb has_raf)) (trace (host w)) = true.
Proof.
  intro w.
  assert (H : forall v, disciplined v ->
            legacy_ (timer (run v es)) = legacy_ (timer v) /\
            disciplined (run v es)).
  { induction es as [|e es IH]; intros v Hv; simpl; [auto|].
    destruct (IH (step v e) (disciplined_step e Hv)) as (Hl & Hd).
    rewrite Hl, step_legacy. auto. }
  destruct (H (init opt_legacy has_raf) eq_refl) as (Hl & Hd).
  split; [exact Hl|]. unfold disciplined in Hd.
  rewrite Hl in Hd. exact Hd.
Qed.

(* ------------------------------------------------------------------ *)
(** *** A NaN period *)

Definition is_setPeriod (e : event) : bool :=
  match e with SetPeriod _ => true | _ => false end.

Lemma timerCallback_NaN_period (w : World) (now : Q) :
  period_ (timer w) = NaN ->
  calls (trace (host (timerCallback w now))) = calls (trace (host w)).
Proof.
  intro Hp. rewrite timerCallback_unfold.
  destruct (callBack_ (timer w)) as [f|]; [|reflexivity].
  rewrite Hp.
  assert (He : num_geb (elapsed_at (timer w) now) NaN = false) by reflexivity.
  rewrite He. destruct (reschedule_spec w) as (_ & _ & _ & _ & Hc). exact Hc.
Qed.

Lemma step_NaN_period (w : World) (e : event) :
  is_setPeriod e = false ->
  period_ (timer w) = NaN ->
  period_ (timer (step w e)) = NaN /\
  calls (trace (host (step w e))) = calls (trace (host w)).
Proof.
  intros He Hp. destruct e as [p|cb|n0 n1| |h now|now];
    cbn [step is_setPeriod] in *; try discriminate.
  - unfold setCallBack. cbn [timer host]. rewrite stopFiring_timer.
    destruct (stopFiring_host w) as (_ & Hc & _). auto.
  - destruct (startFiring_cases w n0 n1) as [-> | ->]; [auto|].
    destruct (timerCallback_keeps (armed w n0) n1) as (Hq & _).
    rewrite Hq. split; [exact Hp|].
    apply (timerCallback_NaN_period (armed w n0) n1 Hp).
  - rewrite stopFiring_timer. destruct (stopFiring_host w) as (_ & Hc & _). auto.
  - destruct (deliver_cases w h now) as [-> | ->]; [auto|].
    match goal with |- context [timerCallback ?x now] =>
      destruct (timerCallback_keeps x now) as (Hq & _);
      pose proof (timerCallback_NaN_period x now Hp) as Hc end.
    rewrite Hq. auto.
  - destruct (timerCallback_keeps w now) as (Hq & _). rewrite Hq.
    split; [exact Hp|]. apply timerCallback_NaN_period. exact Hp.
Qed.

(** [setPeriod(NaN)] is accepted (NaN is not [< 0]), and with a NaN period the
    test [elapsed >= period_] is never true: no callback is invoked any more,
    not by [startFiring], not by any tick, until [setPeriod] is called again;
    the handler still reschedules itself. *)
Theorem NaN_period_silences (w : World) (es : list event) :
  forallb (fun e => negb (is_setPeriod e)) es = true ->
  fst (setPeriod w NaN) = Returned /\
  getPeriod (snd (setPeriod w NaN)) = NaN /\
  calls (trace (host (run (snd (setPeriod w NaN)) es))) = calls (trace (host w)).
Proof.
  intro Hes. split; [reflexivity|]. split; [reflexivity|].
  assert (H : forall v, period_ (timer v) = NaN ->
            calls (trace (host (run v es))) = calls (trace (host v))).
  { induction es as [|e es IH]; intros v Hv; simpl in *; [reflexivity|].
    apply andb_true_iff in Hes. destruct Hes as [He Hes].
    apply negb_true_iff in He.
    destruct (step_NaN_period v e He Hv) as (Hp & Hc).
    rewrite (IH Hes (step v e) Hp). exact Hc. }
  rewrite H; reflexivity.
Qed.

Lemma NaN_period_silences_witness :
  calls (trace (host
    (run (snd (setPeriod (setCallBack (init false true) (Some 7%nat)) NaN))
         (StartFiring 10 10 :: Tick 1%nat 11 :: Tick 2%nat 12 :: nil)))) = [] /\
  scheduled (host
    (run (snd (setPeriod (setCallBack (init false true) (Some 7%nat)) NaN))
         (StartFiring 10 10 :: Tick 1%nat 11 :: Tick 2%nat 12 :: nil)))
    = (3 :: nil)%nat.
Proof.
  split; [|reflexivity].
  exact (proj2 (proj2
    (@NaN_period_silences (setCallBack (init false true) (Some 7%nat))
       (StartFiring 10 10 :: Tick 1%nat 11 :: Tick 2%nat 12 :: nil) eq_refl))).
Defined.

(* ------------------------------------------------------------------ *)
(** *** Period zero: every tick counts *)

(** Clock readings that never go back, from [t] on. *)
Fixpoint nondecreasing (t : Q) (times : list Q) : Prop :=
  match times with
  | [] => True
  | x :: rest => t <= x /\ nondecreasing x rest
  end.

Lemma fires_at_period_zero (w : World) (now : Q) (f : callback) (t d : Q) :
  callBack_ (timer w) = Some f ->
  num_eqb (period_ (timer w)) zero = true ->
  fired_sys_ (timer w) = Fin t -> delta_ (timer w) = Fin d ->
  0 <= d -> t <= now ->
  calls (trace (host (timerCallback w now))) = f :: calls (trace (host w)) /\
  fired_sys_ (timer (timerCallback w now)) = Fin now /\
  delta_ (timer (timerCallback w now)) = Fin 0.
Proof.
  intros Hf Hz Ht Hd Hd0 Hnow.
  destruct (period_ (timer w)) as [| | |p] eqn:Hp; try discriminate.
  simpl in Hz. apply Qeq_bool_iff in Hz.
  assert (Hge : num_geb (elapsed_at (timer w) now) (period_ (timer w)) = true).
  { unfold elapsed_at, num_geb. rewrite Hp, Ht, Hd. simpl.
    apply Qle_bool_iff. lra. }
  rewrite (timerCallback_fires w now Hf Hge).
  match goal with |- context [reschedule ?x] =>
    destruct (reschedule_spec x) as (Htm & _ & _ & _ & Hc) end.
  rewrite Htm, Hc. unfold fired_at. rewrite Hp.
  assert (Hgt : num_gtb (Fin p) zero = false).
  { apply num_eqb_zero_not_gtb. simpl. apply Qeq_bool_iff. exact Hz. }
  rewrite Hgt. repeat split.
Qed.

(** With period 0 the Timer does not throttle: when the clock never goes
    back, every run of the handler invokes the callback, and the drift stays
    0. *)
Theorem every_tick_fires_at_period_zero (times : list Q) (w : World)
    (f : callback) (t d : Q) :
  callBack_ (timer w) = Some f ->
  num_eqb (period_ (timer w)) zero = true ->
  fired_sys_ (timer w) = Fin t -> delta_ (timer w) = Fin d -> 0 <= d ->
  nondecreasing t times ->
  calls (trace (host (run w (map Forced times))))
    = repeat f (List.length times) ++ calls (trace (host w)) /\
  (times <> [] -> delta_ (timer (run w (map Forced times))) = Fin 0).
Proof.
  revert w t d. induction times as [|now times IH];
    intros w t d Hf Hz Ht Hd Hd0 Hmono.
  - split; [reflexivity | congruence].
  - destruct Hmono as (Hnow & Hmono). cbn [map run fold_left step].
    destruct (@fires_at_period_zero w now f t d Hf Hz Ht Hd Hd0 Hnow)
      as (Hc & Ht' & Hd').
    destruct (timerCallback_keeps w now) as (Hp' & _ & Hf' & _).
    rewrite <- Hf' in Hf. rewrite <- Hp' in Hz.
    destruct (IH (timerCallback w now) now 0 Hf Hz Ht' Hd' (Qle_refl 0) Hmono)
      as (Hcs & Hds).
    split.
    + change (fold_left step (map Forced times) (timerCallback w now))
        with (run (timerCallback w now) (map Forced times)).
      rewrite Hcs, Hc. cbn [List.length repeat].
      rewrite (repeat_cons (List.length times) f), <- app_assoc. reflexivity.
    + intros _. change (fold_left step (map Forced times) (timerCallback w now))
        with (run (timerCallback w now) (map Forced times)).
      destruct times as [|x rest]; [exact Hd'|]. apply Hds. discriminate.
Qed.

Lemma every_tick_fires_at_period_zero_witness :
  calls (trace (host
    (run (startFiring (setCallBack (init false true) (Some 7%nat)) 10 10)
         (map Forced (10 :: (601 # 60) :: (602 # 60) :: nil)))))
  = (7 :: 7 :: 7 :: 7 :: nil)%nat.
Proof.
  assert (Hm : nondecreasing 10 (10 :: (601 # 60) :: (602 # 60) :: nil)).
  { simpl. repeat split; unfold Qle; simpl; lia. }
  assert (H0 : 0 <= 0) by apply Qle_refl.
  exact (proj1 (@every_tick_fires_at_period_zero
           (10 :: (601 # 60) :: (602 # 60) :: nil)
           (startFiring (setCallBack (init false true) (Some 7%nat)) 10 10)
           7%nat 10 0 eq_refl eq_refl eq_refl eq_refl H0 Hm)).
Defined.

End TimerMore.

(* ------------------------------------------------------------------ *)
(** ** The Timer in full: any arithmetic, and a callback that calls the Timer *)

Module General.

Definition handle := Timer.handle.
Definition callback := Timer.callback.

(** The operations on numbers that the Timer's code uses, and its literals. *)
Record Arith : Type := mkArith {
  num : Type;
  sub : num -> num -> num;       (* x - y *)
  mul : num -> num -> num;       (* x * y *)
  rem : num -> num -> num;       (* x % y *)
  round : num -> num;            (* Math.round(x) *)
  ltb : num -> num -> bool;      (* x < y *)
  leb : num -> num -> bool;      (* x <= y *)
  nan : num;                     (* NaN *)
  n0 : num;                      (* 0 *)
  n17 : num;                     (* 17 *)
  n1000 : num;                   (* 1000 *)
  n1E_7 : num                    (* 1E-7 *)
}.

(** [x > y] and [x >= y] *)
Definition gtb (A : Arith) (x y : num A) : bool := ltb A y x.
Definition geb (A : Arith) (x y : num A) : bool := leb A y x.

Section Model.

Variable A : Arith.

Inductive effect : Type :=
| Call (f : callback)
| SetTimeout (h : handle) (delay_ms : num A)
| RequestAnimationFrame (h : handle)
| ClearTimeout (h : handle)
| CancelAnimationFrame (h : handle).

Record Host : Type := mkHost {
  next_handle : handle;
  scheduled : list handle;
  trace : list effect
}.

Record Timer : Type := mkTimer {
  legacy_ : bool;
  timeoutID_ : option handle;
  callBack_ : option callback;
  period_ : num A;
  firing_ : bool;
  fired_sys_ : num A;
  delta_ : num A
}.

Record World : Type := mkWorld {
  timer : Timer;
  host : Host
}.

(** [new Timer(opt_legacy)]; [has_raf] is [goog.isFunction(requestAnimationFrame)]. *)
Definition new_Timer (opt_legacy has_raf : bool) : Timer :=
  {| legacy_ := opt_legacy || negb has_raf;
     timeoutID_ := None;
     callBack_ := None;
     period_ := n0 A;
     firing_ := false;
     fired_sys_ := nan A;
     delta_ := n0 A |}.

Definition new_Host : Host :=
  {| next_handle := 1%nat; scheduled := []; trace := [] |}.

Definition init (opt_legacy has_raf : bool) : World :=
  {| timer := new_Timer opt_legacy has_raf; host := new_Host |}.

(** Field assignments. *)
Definition set_timeoutID (v : option handle) (t : Timer) : Timer :=
  mkTimer (legacy_ t) v (callBack_ t) (period_ t) (firing_ t) (fired_sys_ t) (delta_ t).
Definition set_callBack (v : option callback) (t : Timer) : Timer :=
  mkTimer (legacy_ t) (timeoutID_ t) v (period_ t) (firing_ t) (fired_sys_ t) (delta_ t).
Definition set_period (v : num A) (t : Timer) : Timer :=
  mkTimer (legacy_ t) (timeoutID_ t) (callBack_ t) v (firing_ t) (fired_sys_ t) (delta_ t).
Definition set_firing (v : bool) (t : Timer) : Timer :=
  mkTimer (legacy_ t) (timeoutID_ t) (callBack_ t) (period_ t) v (fired_sys_ t) (delta_ t).
Definition set_fired_sys (v : num A) (t : Timer) : Timer :=
  mkTimer (legacy_ t) (timeoutID_ t) (callBack_ t) (period_ t) (firing_ t) v (delta_ t).
Definition set_delta (v : num A) (t : Timer) : Timer :=
  mkTimer (legacy_ t) (timeoutID_ t) (callBack_ t) (period_ t) (firing_ t) (fired_sys_ t) v.

(** The host's side of the effects. *)
Definition log (e : effect) (h : Host) : Host :=
  mkHost (next_handle h) (scheduled h) (e :: trace h).

Definition setTimeout (delay_ms : num A) (h : Host) : handle * Host :=
  let id := next_handle h in
  (id, mkHost (S id) (id :: scheduled h) (SetTimeout id delay_ms :: trace h)).

Definition requestAnimationFrame (h : Host) : handle * Host :=
  let id := next_handle h in
  (id, mkHost (S id) (id :: scheduled h) (RequestAnimationFrame id :: trace h)).

Definition clearTimeout (id : handle) (h : Host) : Host :=
  mkHost (next_handle h) (remove Nat.eq_dec id (scheduled h)) (ClearTimeout id :: trace h).
Definition cancelAnimationFrame (id : handle) (h : Host) : Host :=
  mkHost (next_handle h) (remove Nat.eq_dec id (scheduled h))
         (CancelAnimationFrame id :: trace h).

(** [Timer.prototype.getPeriod] and [Timer.prototype.isFiring] *)
Definition getPeriod (w : World) : num A := period_ (timer w).
Definition isFiring (w : World) : bool := firing_ (timer w).

(** [Timer.prototype.stopFiring] *)
Definition stopFiring (w : World) : World :=
  let t1 := set_firing false (timer w) in
  let w2 :=
    match timeoutID_ t1 with
    | Some id =>
      mkWorld (set_timeoutID None t1)
              (if legacy_ t1 then clearTimeout id (host w)
               else cancelAnimationFrame id (host w))
    | None => mkWorld t1 (host w)
    end in
  mkWorld (set_delta (n0 A) (set_fired_sys (nan A) (timer w2))) (host w2).

(** [Timer.prototype.setCallBack] *)
Definition setCallBack (w : World) (callBack : option callback) : World :=
  let w1 := stopFiring w in
  mkWorld (set_callBack callBack (timer w1)) (host w1).

(** [Timer.prototype.setPeriod]; a call that throws leaves the world as it
    was. *)
Definition setPeriod (w : World) (period : num A) : Timer.outcome * World :=
  if ltb A period (n0 A) then (Timer.Threw, w)
  else (Timer.Returned, mkWorld (set_period period (timer w)) (host w)).

(** What the call [this.callBack_()] does.  The callback [f] runs to its end
    and returns; on its way it may call the methods of the Timer.
    [invoke f w] is the world it leaves, from the world [w] in which it was
    called. *)
Variable invoke : callback -> World -> World.

(** [Timer.prototype.timerCallback]; [now] is its read of [Util.systemTime()].
    [elapsed] and [now] are locals, computed before the callback runs;
    [this.period_] and [this.legacy_] are read after it. *)
Definition timerCallback (w : World) (now : num A) : World :=
  let t := timer w in
  match callBack_ t with
  | None => w
  | Some f =>
    let elapsed := sub A now (sub A (fired_sys_ t) (delta_ t)) in
    let w1 :=
      if geb A elapsed (period_ t) then
        let v := invoke f (mkWorld t (log (Call f) (host w))) in
        let t' := set_fired_sys now (timer v) in
        mkWorld
          (set_delta (if gtb A (period_ t') (n0 A)
                      then rem A elapsed (period_ t') else n0 A) t')
          (host v)
      else w in
    let t1 := timer w1 in
    if legacy_ t1 then
      let delay_ms :=
        if gtb A (period_ t1) (n0 A)
        then round A (mul A (period_ t1) (n1000 A)) else n17 A in
      let (id, h2) := setTimeout delay_ms (host w1) in
      mkWorld (set_timeoutID (Some id) t1) h2
    else
      let (id, h2) := requestAnimationFrame (host w1) in
      mkWorld (set_timeoutID (Some id) t1) h2
  end.

(** [Timer.prototype.startFiring]; [now0] is its own read of the clock,
    [now1] the read of the [timerCallback] it calls. *)
Definition startFiring (w : World) (now0 now1 : num A) : World :=
  if negb (firing_ (timer w)) then
    let t1 := set_firing true (timer w) in
    let t2 := set_delta (n0 A) t1 in
    let t3 := set_fired_sys (sub A (sub A now0 (period_ t2)) (n1E_7 A)) t2 in
    timerCallback (mkWorld t3 (host w)) now1
  else w.

(** The scheduling primitive delivers the tick [h], if it still holds it. *)
Definition deliver (w : World) (h : handle) (now : num A) : World :=
  if existsb (Nat.eqb h) (scheduled (host w)) then
    let hst := host w in
    timerCallback
      (mkWorld (timer w)
               (mkHost (next_handle hst) (remove Nat.eq_dec h (scheduled hst)) (trace hst)))
      now
  else w.

(** What can happen to a Timer; [Forced] runs the handler although no tick
    was scheduled. *)
Inductive event : Type :=
| SetPeriod (period : num A)
| SetCallBack (callBack : option callback)
| StartFiring (now0 now1 : num A)
| StopFiring
| Tick (h : handle) (now : num A)
| Forced (now : num A).

Definition step (w : World) (e : event) : World :=
  match e with
  | SetPeriod p => snd (setPeriod w p)
  | SetCallBack cb => setCallBack w cb
  | StartFiring now0 now1 => startFiring w now0 now1
  | StopFiring => stopFiring w
  | Tick h now => deliver w h now
  | Forced now => timerCallback w now
  end.

Definition run (w : World) (es : list event) : World := fold_left step es w.

(** The callbacks invoked so far, the latest first. *)
Fixpoint calls (tr : list effect) : list callback :=
  match tr with
  | [] => []
  | Call f :: tr' => f :: calls tr'
  | _ :: tr' => calls tr'
  end.

End Model.

(** Two callbacks: one that does not touch the Timer, and one that is
    [function() { timer.stopFiring(); }]. *)
Definition leaves_alone (A : Arith) (f : callback) (w : World A) : World A := w.
Definition stops (A : Arith) (f : callback) (w : World A) : World A := stopFiring w.

(** Exact arithmetic: the numbers of [JsNum]. *)
Definition exact : Arith :=
  {| num := number;
     sub := num_sub;
     mul := num_mul;
     rem := num_rem;
     round := num_round;
     ltb := num_ltb;
     leb := num_leb;
     nan := NaN;
     n0 := Fin 0;
     n17 := Fin 17;
     n1000 := Fin 1000;
     n1E_7 := Fin Timer.epsilon |}.

End General.

(* ------------------------------------------------------------------ *)
(** ** The arithmetic of JavaScript: binary64 *)

Module Binary64.
Import PrimFloat FloatOps SpecFloat.

(** [x % y]: the remainder of the truncated division, computed exactly; it
    has the sign of [x]. *)
Definition fmod (x y : float) : float :=
  match Prim2SF x, Prim2SF y with
  | S754_nan, _ | _, S754_nan => PrimFloat.nan
  | S754_infinity _, _ => PrimFloat.nan
  | _, S754_zero _ => PrimFloat.nan
  | S754_zero _, _ => x
  | S754_finite _ _ _, S754_infinity _ => x
  | S754_finite s mx ex, S754_finite _ my ey =>
    let e := Z.min ex ey in
    match Z.modulo (Zpos mx * 2 ^ (ex - e)) (Zpos my * 2 ^ (ey - e)) with
    | Zpos m => SF2Prim (S754_finite s m e)
    | _ => SF2Prim (S754_zero s)
    end
  end.

(** [Math.round(x)]: the integer nearest to [x], halves going up. *)
Definition round (x : float) : float :=
  match Prim2SF x with
  | S754_finite s m e =>
    if (0 <=? e)%Z then x
    else
      match Z.div ((if s then Zneg m else Zpos m) * 2 + 2 ^ (- e)) (2 ^ (1 - e)) with
      | Zpos k => SF2Prim (S754_finite false k 0)
      | Zneg k => SF2Prim (S754_finite true k 0)
      | Z0 => SF2Prim (S754_zero s)
      end
  | _ => x
  end.

(** The literal [1E-7] is the double nearest to it. *)
Definition lit_1E_7 : float := 0x1.ad7f29abcaf48p-24%float.

Definition binary64 : General.Arith :=
  {| General.num := float;
     General.sub := PrimFloat.sub;
     General.mul := PrimFloat.mul;
     General.rem := fmod;
     General.round := round;
     General.ltb := PrimFloat.ltb;
     General.leb := PrimFloat.leb;
     General.nan := PrimFloat.nan;
     General.n0 := 0%float;
     General.n17 := 17%float;
     General.n1000 := 1000%float;
     General.n1E_7 := lit_1E_7 |}.

(** Clock readings, in seconds: a whole second of November 2026 as
    [Date.now()*1E-3] gives it, half a second later, and a small reading. *)
Definition clock_2026 : float := 1793664000%float.
Definition clock_2026_later : float := 1793664000.5%float.
Definition clock_small : float := 10%float.

(** Periods: the doubles nearest to 0.1 and to 1/60. *)
Definition tenth : float := 0x1.999999999999ap-4%float.
Definition sixtieth : float := 0x1.1111111111111p-6%float.

End Binary64.

(* ------------------------------------------------------------------ *)
(** ** Facts about the Timer in full *)

Module GeneralFacts.
Import General.

Section Handler.

Variable A : Arith.
Variable invoke : callback -> World A -> World A.

(** The last part of the handler: one request to the primitive, its handle
    kept in [timeoutID_]. *)
Definition reschedule (w : World A) : World A :=
  let t1 := timer w in
  if legacy_ t1 then
    let delay_ms :=
      if gtb A (period_ t1) (n0 A)
      then round A (mul A (period_ t1) (n1000 A)) else n17 A in
    let (id, h2) := setTimeout delay_ms (host w) in
    mkWorld (set_timeoutID (Some id) t1) h2
  else
    let (id, h2) := requestAnimationFrame (host w) in
    mkWorld (set_timeoutID (Some id) t1) h2.

(** [elapsed], as the handler computes it. *)
Definition elapsed_at (t : Timer A) (now : num A) : num A :=
  sub A now (sub A (fired_sys_ t) (delta_ t)).

(** The world after the callback [f] was invoked and the bookkeeping
    written. *)
Definition fired (w : World A) (f : callback) (now : num A) : World A :=
  let v := invoke f (mkWorld (timer w) (log (Call A f) (host w))) in
  let t' := set_fired_sys now (timer v) in
  mkWorld
    (set_delta (if gtb A (period_ t') (n0 A)
                then rem A (elapsed_at (timer w) now) (period_ t') else n0 A) t')
    (host v).

Lemma timerCallback_shape (w : World A) (now : num A) :
  timerCallback invoke w now =
  match callBack_ (timer w) with
  | None => w
  | Some f =>
    reschedule (if geb A (elapsed_at (timer w) now) (period_ (timer w))
                then fired w f now else w)
  end.
Proof.
  unfold timerCallback, reschedule, fired, elapsed_at.
  destruct (callBack_ (timer w)); reflexivity.
Qed.

Lemma reschedule_shape (w : World A) :
  timer (reschedule w) = set_timeoutID (Some (next_handle (host w))) (timer w) /\
  scheduled (host (reschedule w)) = next_handle (host w) :: scheduled (host w) /\
  next_handle (host (reschedule w)) = S (next_handle (host w)) /\
  calls (trace (host (reschedule w))) = calls (trace (host w)).
Proof.
  unfold reschedule. destruct (legacy_ (timer w)); simpl; auto.
Qed.

Lemma startFiring_shape (w : World A) (now0 now1 : num A) :
  startFiring invoke w now0 now1 =
  if firing_ (timer w) then w
  else timerCallback invoke
         (mkWorld
            (set_fired_sys (sub A (sub A now0 (period_ (timer w))) (n1E_7 A))
               (set_delta (n0 A) (set_firing true (timer w))))
            (host w)) now1.
Proof. unfold startFiring. destruct (firing_ (timer w)); reflexivity. Qed.

End Handler.

(* ------------------------------------------------------------------ *)
(** *** startFiring on a large clock reading *)

Import Binary64.

(** A Timer with a callback, [7], that leaves the Timer alone, and a period of
    0.1 s; the same with a period of 1/60 s. *)
Definition slow_timer : World binary64 :=
  snd (setPeriod (setCallBack (init binary64 false true) (Some 7%nat)) tenth).
Definition frame_timer : World binary64 :=
  snd (setPeriod (setCallBack (init binary64 false true) (Some 7%nat)) sixtieth).

(** C5. [startFiring()] does not always invoke the callback during the call.
    With the clock at 1793664000 s (November 2026, as [Date.now()*1E-3] gives
    it) and a period of 0.1 s or 1/60 s, the [1E-7] of
    [now - period_ - 1E-7] is below half the spacing of the doubles near the
    clock reading and is lost; the first [elapsed] comes out below the period,
    the handler skips, and [startFiring()] returns with the Timer firing, one
    tick scheduled and the callback not invoked.  With a small clock reading
    the same call does invoke the callback. *)
Theorem startFiring_misses_first_call :
  (isFiring slow_timer = false /\
   callBack_ (timer slow_timer) = Some 7%nat /\
   geb binary64 (getPeriod slow_timer) (n0 binary64) = true) /\
  (let w := startFiring (@leaves_alone binary64) slow_timer clock_2026 clock_2026 in
   calls (trace (host w)) = [] /\
   isFiring w = true /\
   scheduled (host w) = (1 :: nil)%nat /\
   ltb binary64 (elapsed_at (timer w) clock_2026) (getPeriod w) = true) /\
  (let w := startFiring (@leaves_alone binary64) frame_timer clock_2026 clock_2026 in
   calls (trace (host w)) = [] /\ isFiring w = true) /\
  (let w := startFiring (@leaves_alone binary64) slow_timer clock_small clock_small in
   calls (trace (host w)) = (7 :: nil)%nat /\ isFiring w = true).
Proof. cbv zeta. repeat match goal with |- _ /\ _ => split end; reflexivity. Qed.

(* ------------------------------------------------------------------ *)
(** *** A callback that stops the Timer *)

(** A Timer whose callback, [7], is [function() { timer.stopFiring(); }];
    the Timer after [startFiring()], and after the tick that call scheduled
    was delivered half a second later. *)
Definition stopper : World binary64 :=
  setCallBack (init binary64 false true) (Some 7%nat).
Definition stopper_started : World binary64 :=
  startFiring (@stops binary64) stopper clock_2026 clock_2026.
Definition stopper_ticked : World binary64 :=
  deliver (@stops binary64) stopper_started 1%nat clock_2026_later.

(** The same Timer with a callback that leaves it alone, stopped from outside
    after [startFiring()]; then the handler is run although its tick was
    cancelled. *)
Definition stopped_outside : World binary64 :=
  timerCallback (@leaves_alone binary64)
    (stopFiring (startFiring (@leaves_alone binary64) stopper clock_2026 clock_2026))
    clock_2026_later.

(** C4. A [stopFiring()] made by the callback does not stop the Timer.  The
    handler goes on after the callback returns: it writes [fired_sys_ = now]
    over the NaN that [stopFiring] left and schedules the next tick.  So
    after [startFiring()] the Timer is not firing and yet a tick is
    scheduled; when that tick is delivered the callback is invoked again,
    with no [startFiring()] in between, and the next tick is scheduled.  A
    [stopFiring()] made between two runs of the handler does stop the
    callbacks, even when the handler is run again. *)
Theorem stopFiring_by_callback_does_not_stop :
  isFiring stopper = false /\
  (calls (trace (host stopper_started)) = (7 :: nil)%nat /\
   isFiring stopper_started = false /\
   scheduled (host stopper_started) = (1 :: nil)%nat) /\
  (trace (host stopper_ticked)
     = [RequestAnimationFrame binary64 2%nat; CancelAnimationFrame binary64 1%nat;
        Call binary64 7%nat; RequestAnimationFrame binary64 1%nat;
        Call binary64 7%nat] /\
   calls (trace (host stopper_ticked)) = (7 :: 7 :: nil)%nat /\
   isFiring stopper_ticked = false /\
   scheduled (host stopper_ticked) = (2 :: nil)%nat) /\
  calls (trace (host stopped_outside)) = (7 :: nil)%nat.
Proof. cbv zeta. repeat match goal with |- _ /\ _ => split end; reflexivity. Qed.

(** A callback [g] that is [function() { timer.setCallBack(h); }]. *)
Definition replaces (A : Arith) (g h : callback) (f : callback) (w : World A)
  : World A :=
  if Nat.eqb f g then setCallBack w (Some h) else w.

(** A Timer whose callback, [7], installs the callback [8], which leaves the
    Timer alone; the Timer after [startFiring()]. *)
Definition replacer_started : World binary64 :=
  startFiring (@replaces binary64 7%nat 8%nat) stopper clock_2026 clock_2026.

(** C8. A Timer that is not firing can have a tick pending.  After
    [setCallBack(g)] with [g] a callback that calls [stopFiring()], and
    [startFiring()], [isFiring()] is false while [timeoutID_] holds the
    handle of a tick the primitive still has; [stopFiring()] on that state is
    no no-op: it cancels the tick.  And with a callback that calls
    [setCallBack(h)], a further [startFiring()] leaves two ticks
    outstanding. *)
Theorem idle_timer_with_pending_tick :
  (isFiring stopper_started = false /\
   timeoutID_ (timer stopper_started) = Some 1%nat /\
   scheduled (host stopper_started) = (1 :: nil)%nat) /\
  (scheduled (host (stopFiring stopper_started)) = [] /\
   timeoutID_ (timer (stopFiring stopper_started)) = None /\
   trace (host (stopFiring stopper_started))
     = CancelAnimationFrame binary64 1%nat :: trace (host stopper_started)) /\
  (isFiring replacer_started = false /\
   scheduled (host replacer_started) = (1 :: nil)%nat /\
   scheduled (host (startFiring (@replaces binary64 7%nat 8%nat) replacer_started
                      clock_2026_later clock_2026_later))
     = (2 :: 1 :: nil)%nat).
Proof. cbv zeta. repeat match goal with |- _ /\ _ => split end; reflexivity. Qed.

(* ------------------------------------------------------------------ *)
(** *** startFiring twice *)

(** [startFiring()] twice in a row need not leave one tick.  A Timer with no
    callback is firing after it and has no tick at all; and a Timer whose
    callback calls [setCallBack(h)] has two. *)
Lemma startFiring_twice_leaves_no_tick_or_two :
  (callBack_ (timer (init binary64 false true)) = None /\
   isFiring
     (startFiring (@leaves_alone binary64)
        (startFiring (@leaves_alone binary64) (init binary64 false true)
           clock_2026 clock_2026) clock_2026 clock_2026) = true /\
   List.length
     (scheduled (host
        (startFiring (@leaves_alone binary64)
           (startFiring (@leaves_alone binary64) (init binary64 false true)
              clock_2026 clock_2026) clock_2026 clock_2026))) = 0%nat) /\
  List.length
    (scheduled (host
       (startFiring (@replaces binary64 7%nat 8%nat) replacer_started
          clock_2026 clock_2026))) = 2%nat.
Proof. cbv zeta. repeat match goal with |- _ /\ _ => split end; reflexivity. Qed.

(** C6, as the code has it. [startFiring()] on a Timer that is firing changes
    nothing: no state, no callback invoked, nothing scheduled - for any
    callback and any arithmetic.  So two [startFiring()] in a row on a Timer
    that was not firing leave what the first left whenever the first left
    the Timer firing: with no callback installed the Timer is firing and
    nothing was asked of the primitive; with a callback that leaves the Timer
    alone there is one tick more than before, its handle in [timeoutID_]. *)
Theorem startFiring_again_changes_nothing (A : Arith)
    (invoke : callback -> World A -> World A) :
  (forall w now0 now1,
     isFiring w = true -> startFiring invoke w now0 now1 = w) /\
  (forall w a b c d,
     isFiring w = false -> callBack_ (timer w) = None ->
     let w2 := startFiring invoke (startFiring invoke w a b) c d in
     isFiring w2 = true /\ host w2 = host w /\
     timeoutID_ (timer w2) = timeoutID_ (timer w)) /\
  (forall w a b c d f,
     isFiring w = false -> callBack_ (timer w) = Some f ->
     (forall v, invoke f v = v) ->
     let w1 := startFiring invoke w a b in
     let w2 := startFiring invoke w1 c d in
     w2 = w1 /\ isFiring w2 = true /\
     scheduled (host w2) = next_handle (host w) :: scheduled (host w) /\
     timeoutID_ (timer w2) = Some (next_handle (host w))).
Proof.
  assert (Hfiring : forall w now0 now1,
            isFiring w = true -> startFiring invoke w now0 now1 = w).
  { intros w now0 now1 Hf. unfold isFiring in Hf.
    rewrite startFiring_shape, Hf. reflexivity. }
  split; [exact Hfiring|]. split.
  - intros w a b c d Hidle Hnone w2. unfold isFiring in Hidle.
    assert (H1 : startFiring invoke w a b
                 = mkWorld
                     (set_fired_sys (sub A (sub A a (period_ (timer w))) (n1E_7 A))
                        (set_delta (n0 A) (set_firing true (timer w))))
                     (host w)).
    { rewrite startFiring_shape, Hidle, timerCallback_shape.
      cbn [timer callBack_ set_fired_sys set_delta set_firing].
      rewrite Hnone. reflexivity. }
    subst w2. rewrite H1. rewrite Hfiring by reflexivity.
    repeat split.
  - intros w a b c d f Hidle Hf Hinert w1 w2. unfold isFiring in Hidle.
    set (armed := mkWorld
                    (set_fired_sys (sub A (sub A a (period_ (timer w))) (n1E_7 A))
                       (set_delta (n0 A) (set_firing true (timer w))))
                    (host w)).
    assert (H1 : exists v,
              w1 = reschedule v /\ firing_ (timer v) = true /\
              scheduled (host v) = scheduled (host w) /\
              next_handle (host v) = next_handle (host w)).
    { subst w1. rewrite startFiring_shape, Hidle. fold armed.
      rewrite timerCallback_shape.
      change (callBack_ (timer armed)) with (callBack_ (timer w)). rewrite Hf.
      destruct (geb A (elapsed_at (timer armed) b) (period_ (timer armed))).
      - exists (fired invoke armed f b). split; [reflexivity|].
        unfold fired. rewrite Hinert. repeat split.
      - exists armed. repeat split. }
    destruct H1 as (v & Hw1 & Hfv & Hsv & Hnv).
    destruct (reschedule_shape v) as (Ht & Hs & _ & _).
    assert (Hfiring1 : isFiring w1 = true).
    { unfold isFiring. rewrite Hw1, Ht. exact Hfv. }
    assert (H2 : w2 = w1) by (subst w2; apply Hfiring; exact Hfiring1).
    rewrite H2. split; [reflexivity|]. split; [exact Hfiring1|].
    rewrite Hw1, Hs, Ht, Hsv, Hnv. split; reflexivity.
Qed.

Lemma startFiring_again_changes_nothing_witness :
  startFiring (@leaves_alone binary64)
    (startFiring (@leaves_alone binary64) slow_timer clock_2026 clock_2026)
    clock_2026_later clock_2026_later
  = startFiring (@leaves_alone binary64) slow_timer clock_2026 clock_2026 /\
  scheduled (host
    (startFiring (@leaves_alone binary64)
       (startFiring (@leaves_alone binary64) slow_timer clock_2026 clock_2026)
       clock_2026_later clock_2026_later)) = (1 :: nil)%nat.
Proof.
  destruct (startFiring_again_changes_nothing (@leaves_alone binary64))
    as (_ & _ & H).
  destruct (H slow_timer clock_2026 clock_2026 clock_2026_later clock_2026_later
              7%nat eq_refl eq_refl (fun v => eq_refl))
    as (H1 & _ & H3 & _).
  split; [exact H1 | exact H3].
Defined.

(* ------------------------------------------------------------------ *)
(** *** The range of the drift *)




Section Drift.

Variable invoke : callback -> World exact -> World exact.

(** The callback, whatever it does with the Timer, leaves it a period that is
    finite and not negative. *)
Hypothesis invoke_period : forall (f : callback) (w : World exact) (p : Q),
  period_ (timer w) = Fin p -> 0 <= p ->
  exists q, period_ (timer (invoke f w)) = Fin q /\ 0 <= q.


(** What these runs keep true of the bookkeeping. *)
Definition steady (t : Timer exact) : Prop :=
  exists p d,
    period_ t = Fin p /\ 0 <= p /\
    delta_ t = Fin d /\ 0 <= d /\ (0 < p -> d < p) /\ (p == 0 -> d == 0) /\
    (fired_sys_ t = NaN \/ exists s, fired_sys_ t = Fin s).


Lemma steady_set_timeoutID (t : Timer exact) (id : option handle) :
  steady t -> steady (set_timeoutID id t).
Proof. intro H. exact H. Qed.








End Drift.






End GeneralFacts.

(* ------------------------------------------------------------------ *)
(** ** The two embeddings agree *)

(** The [Timer] of the first part is the Timer in full, taken with exact
    arithmetic and a callback that leaves the Timer alone. *)
Module Agreement.
Import General.

Definition lift_effect (e : Timer.effect) : effect exact :=
  match e with
  | Timer.Call f => Call exact f
  | Timer.SetTimeout h delay_ms => SetTimeout exact h delay_ms
  | Timer.RequestAnimationFrame h => RequestAnimationFrame exact h
  | Timer.ClearTimeout h => ClearTimeout exact h
  | Timer.CancelAnimationFrame h => CancelAnimationFrame exact h
  end.

Definition lift_host (h : Timer.Host) : Host exact :=
  mkHost (Timer.next_handle h) (Timer.scheduled h)
         (map lift_effect (Timer.trace h)).

Definition lift_timer (t : Timer.Timer) : Timer exact :=
  mkTimer exact (Timer.legacy_ t) (Timer.timeoutID_ t) (Timer.callBack_ t)
          (Timer.period_ t) (Timer.firing_ t) (Timer.fired_sys_ t)
          (Timer.delta_ t).

Definition lift (w : Timer.World) : World exact :=
  mkWorld (lift_timer (Timer.timer w)) (lift_host (Timer.host w)).

Definition lift_event (e : Timer.event) : event exact :=
  match e with
  | Timer.SetPeriod p => SetPeriod exact p
  | Timer.SetCallBack cb => SetCallBack exact cb
  | Timer.StartFiring now0 now1 => StartFiring exact (Fin now0) (Fin now1)
  | Timer.StopFiring => StopFiring exact
  | Timer.Tick h now => Tick exact h (Fin now)
  | Timer.Forced now => Forced exact (Fin now)
  end.

Lemma timerCallback_agrees (w : Timer.World) (now : Q) :
  lift (Timer.timerCallback w now)
  = timerCallback (@leaves_alone exact) (lift w) (Fin now).
Proof.
  destruct w as [[l id cb p fi fs d] [nh sch tr]].
  unfold Timer.timerCallback, timerCallback, lift, lift_timer, lift_host,
    leaves_alone, geb, gtb, num_geb, num_gtb, zero.
  cbn [Timer.timer Timer.host Timer.callBack_ Timer.legacy_ Timer.period_
       Timer.fired_sys_ Timer.delta_ Timer.timeoutID_ Timer.firing_
       timer host callBack_ legacy_ period_ fired_sys_ delta_ timeoutID_
       firing_ exact sub mul rem round ltb leb n0 n17 n1000].
  destruct cb as [f|]; [|reflexivity].
  destruct (num_leb p (num_sub (Fin now) (num_sub fs d))); destruct l;
    reflexivity.
Qed.

Lemma stopFiring_agrees (w : Timer.World) :
  lift (Timer.stopFiring w) = stopFiring (lift w).
Proof.
  destruct w as [[l id cb p fi fs d] [nh sch tr]].
  unfold Timer.stopFiring, stopFiring, lift, lift_timer, lift_host.
  destruct id as [i|]; destruct l; reflexivity.
Qed.

Lemma step_agrees (w : Timer.World) (e : Timer.event) :
  lift (Timer.step w e) = step (@leaves_alone exact) (lift w) (lift_event e).
Proof.
  destruct e as [p|cb|now0 now1| |h now|now]; cbn [Timer.step step lift_event].
  - unfold Timer.setPeriod, setPeriod. cbn [exact ltb n0].
    change (Fin 0) with zero. destruct (num_ltb p zero); reflexivity.
  - unfold Timer.setCallBack, setCallBack. rewrite <- stopFiring_agrees.
    reflexivity.
  - unfold Timer.startFiring, startFiring.
    change (firing_ (timer (lift w))) with (Timer.firing_ (Timer.timer w)).
    destruct (Timer.firing_ (Timer.timer w)); cbn [negb]; [reflexivity|].
    rewrite timerCallback_agrees. reflexivity.
  - apply stopFiring_agrees.
  - unfold Timer.deliver, deliver.
    change (scheduled (host (lift w))) with (Timer.scheduled (Timer.host w)).
    destruct (existsb (Nat.eqb h) (Timer.scheduled (Timer.host w)));
      [|reflexivity].
    rewrite timerCallback_agrees. reflexivity.
  - apply timerCallback_agrees.
Qed.

(** Every run of the first embedding is a run of the second. *)
Lemma run_agrees (es : list Timer.event) (w : Timer.World) :
  lift (Timer.run w es)
  = run (@leaves_alone exact) (lift w) (map lift_event es).
Proof.
  revert w. induction es as [|e es IH]; intro w; [reflexivity|].
  cbn [Timer.run run map fold_left]. 
  change (fold_left Timer.step es (Timer.step w e))
    with (Timer.run (Timer.step w e) es).
  rewrite IH, step_agrees. reflexivity.
Qed.

End Agreement.

(* ------------------------------------------------------------------ *)
(** ** DisplayLine *)

Module DisplayLine.

(** The [Line] a DisplayLine shows, by its name. *)
Definition Line := string.

(** A style property left [undefined] is [None]. The prototype is fixed at
    construction, so the chain of prototypes is finite. *)
#[local] Set Warnings "-register-all".
Inductive DisplayLine : Type := mkDisplayLine {
  line_ : Line;
  color_ : option string;
  thickness_ : option number;
  lineDash_ : option (list number);
  zIndex_ : option number;
  proto_ : option DisplayLine
}.

(** [new DisplayLine(line, proto)] *)
Definition new_DisplayLine (line : option Line) (proto : option DisplayLine)
  : DisplayLine :=
  {| line_ := match line with Some l => l | None => "proto"%string end;
     color_ := None;
     thickness_ := None;
     lineDash_ := None;
     zIndex_ := None;
     proto_ := proto |}.

(** [DisplayLine.prototype.getColor] *)
Fixpoint getColor (d : DisplayLine) : string :=
  match color_ d with
  | Some c => c
  | None =>
    match proto_ d with
    | Some p => getColor p
    | None => "gray"%string
    end
  end.

(** [DisplayLine.prototype.getLineDash] *)
Fixpoint getLineDash (d : DisplayLine) : list number :=
  match lineDash_ d with
  | Some l => l
  | None =>
    match proto_ d with
    | Some p => getLineDash p
    | None => []
    end
  end.

(** [DisplayLine.prototype.getThickness]; the default is [4.0]. *)
Fixpoint getThickness (d : DisplayLine) : number :=
  match thickness_ d with
  | Some x => x
  | None =>
    match proto_ d with
    | Some p => getThickness p
    | None => Fin 4
    end
  end.

(** [DisplayLine.prototype.getZIndex] *)
Fixpoint getZIndex (d : DisplayLine) : number :=
  match zIndex_ d with
  | Some z => z
  | None =>
    match proto_ d with
    | Some p => getZIndex p
    | None => Fin 0
    end
  end.

(** The setters. *)
Definition setColor (color : option string) (d : DisplayLine) : DisplayLine :=
  mkDisplayLine (line_ d) color (thickness_ d) (lineDash_ d) (zIndex_ d) (proto_ d).
Definition setLineDash (lineDash : option (list number)) (d : DisplayLine)
  : DisplayLine :=
  mkDisplayLine (line_ d) (color_ d) (thickness_ d) lineDash (zIndex_ d) (proto_ d).
Definition setThickness (thickness : option number) (d : DisplayLine) : DisplayLine :=
  mkDisplayLine (line_ d) (color_ d) thickness (lineDash_ d) (zIndex_ d) (proto_ d).
Definition setZIndex (zIndex : option number) (d : DisplayLine) : DisplayLine :=
  mkDisplayLine (line_ d) (color_ d) (thickness_ d) (lineDash_ d) zIndex (proto_ d).

(** The nearest definition of a property along the chain of prototypes. *)
Fixpoint inherited {A : Type} (prop : DisplayLine -> option A) (d : DisplayLine)
  : option A :=
  match prop d with
  | Some a => Some a
  | None =>
    match proto_ d with
    | Some p => inherited prop p
    | None => None
    end
  end.

(** C9. Every style accessor of a DisplayLine falls back in three steps: the
    line's own value when it is defined; otherwise what the same accessor of
    the prototype returns, when a prototype was supplied; otherwise the
    default - ['gray'] for [getColor], [4.0] for [getThickness], the empty
    array for [getLineDash], [0] for [getZIndex]. *)
Theorem style_fallback (d : DisplayLine) :
  getColor d =
    match color_ d, proto_ d with
    | Some c, _ => c
    | None, Some p => getColor p
    | None, None => "gray"%string
    end /\
  getThickness d =
    match thickness_ d, proto_ d with
    | Some x, _ => x
    | None, Some p => getThickness p
    | None, None => Fin 4
    end /\
  getLineDash d =
    match lineDash_ d, proto_ d with
    | Some l, _ => l
    | None, Some p => getLineDash p
    | None, None => []
    end /\
  getZIndex d =
    match zIndex_ d, proto_ d with
    | Some z, _ => z
    | None, Some p => getZIndex p
    | None, None => Fin 0
    end.
Proof.
  destruct d as [l c t ld z p]. simpl.
  destruct c, t, ld, z, p; repeat split.
Qed.

(** Induction along the chain of prototypes. *)
Fixpoint chain_ind (P : DisplayLine -> Prop)
    (Hlast : forall l c t ld z, P (mkDisplayLine l c t ld z None))
    (Hnext : forall l c t ld z p, P p -> P (mkDisplayLine l c t ld z (Some p)))
    (d : DisplayLine) : P d :=
  match d with
  | mkDisplayLine l c t ld z None => Hlast l c t ld z
  | mkDisplayLine l c t ld z (Some p) =>
    Hnext l c t ld z p (chain_ind P Hlast Hnext p)
  end.

(** Unfolded along the whole chain: an accessor returns the nearest defined
    value, and the default when no line of the chain defines one. *)
Lemma getColor_inherited (d : DisplayLine) :
  getColor d = match inherited color_ d with Some c => c | None => "gray"%string end.
Proof.
  induction d as [l c t ld z|l c t ld z p IH] using chain_ind;
    simpl; destruct c; auto.
Qed.

(** A red prototype, a line that inherits from it, and one that overrides. *)
Definition red_proto : DisplayLine :=
  setThickness (Some (Fin 2)) (setColor (Some "red"%string) (new_DisplayLine None None)).
Definition plain_line : DisplayLine :=
  new_DisplayLine (Some "spring"%string) (Some red_proto).
Definition blue_line : DisplayLine := setColor (Some "blue"%string) plain_line.

Lemma style_fallback_witness :
  getColor blue_line = "blue"%string /\
  getColor plain_line = getColor red_proto /\
  getColor (new_DisplayLine None None) = "gray"%string /\
  getThickness plain_line = Fin 2 /\
  getZIndex blue_line = Fin 0.
Proof.
  split; [exact (proj1 (style_fallback blue_line))|].
  split; [exact (proj1 (style_fallback plain_line))|].
  split; [exact (proj1 (style_fallback (new_DisplayLine None None)))|].
  split; reflexivity.
Defined.

End DisplayLine.

(* ------------------------------------------------------------------ *)
(** ** More on DisplayLine: the chain of prototypes, the setters, drawing *)

Module DisplayLineMore.
Import DisplayLine.

(** A line, its prototype, the prototype of that, and so on. *)
Fixpoint chain (d : DisplayLine) : list DisplayLine :=
  match d with
  | mkDisplayLine _ _ _ _ _ p =>
    d :: match p with Some q => chain q | None => [] end
  end.

(** The first value that is defined. *)
Fixpoint first_defined {A : Type} (l : list (option A)) : option A :=
  match l with
  | [] => None
  | Some a :: _ => Some a
  | None :: rest => first_defined rest
  end.

Definition or_default {A : Type} (default : A) (x : option A) : A :=
  match x with Some a => a | None => default end.

(** However long the chain of prototypes, an accessor returns the value of
    the nearest line of the chain that defines the property, beginning with
    the line itself, and the default only when no line of the chain defines
    it. *)
Theorem accessors_take_nearest (d : DisplayLine) :
  getColor d = or_default "gray"%string (first_defined (map color_ (chain d))) /\
  getThickness d = or_default (Fin 4) (first_defined (map thickness_ (chain d))) /\
  getLineDash d = or_default [] (first_defined (map lineDash_ (chain d))) /\
  getZIndex d = or_default (Fin 0) (first_defined (map zIndex_ (chain d))).
Proof.
  induction d as [l c t ld z|l c t ld z p (IHc & IHt & IHl & IHz)]
    using chain_ind.
  - destruct c, t, ld, z; repeat split.
  - cbn [chain map first_defined color_ thickness_ lineDash_ zIndex_
         getColor getThickness getLineDash getZIndex proto_].
    repeat split.
    + destruct c; [reflexivity | exact IHc].
    + destruct t; [reflexivity | exact IHt].
    + destruct ld; [reflexivity | exact IHl].
    + destruct z; [reflexivity | exact IHz].
Qed.

(** A setter decides what its own accessor returns - the value set, or with
    [undefined] what the prototype chain gives - and changes the result of no
    other accessor. *)
Theorem setters_and_accessors (d : DisplayLine) (c : string) (t z : number)
    (l : list number) :
  (getColor (setColor (Some c) d) = c /\
   getThickness (setThickness (Some t) d) = t /\
   getLineDash (setLineDash (Some l) d) = l /\
   getZIndex (setZIndex (Some z) d) = z) /\
  (getColor (setColor None d)
     = match proto_ d with Some p => getColor p | None => "gray"%string end /\
   getThickness (setThickness None d)
     = match proto_ d with Some p => getThickness p | None => Fin 4 end /\
   getLineDash (setLineDash None d)
     = match proto_ d with Some p => getLineDash p | None => [] end /\
   getZIndex (setZIndex None d)
     = match proto_ d with Some p => getZIndex p | None => Fin 0 end) /\
  (forall x,
     getThickness (setColor x d) = getThickness d /\
     getLineDash (setColor x d) = getLineDash d /\
     getZIndex (setColor x d) = getZIndex d) /\
  (forall x,
     getColor (setThickness x d) = getColor d /\
     getLineDash (setThickness x d) = getLineDash d /\
     getZIndex (setThickness x d) = getZIndex d) /\
  (forall x,
     getColor (setLineDash x d) = getColor d /\
     getThickness (setLineDash x d) = getThickness d /\
     getZIndex (setLineDash x d) = getZIndex d) /\
  (forall x,
     getColor (setZIndex x d) = getColor d /\
     getThickness (setZIndex x d) = getThickness d /\
     getLineDash (setZIndex x d) = getLineDash d).
Proof.
  destruct d as [ln c0 t0 l0 z0 p]. repeat split.
Qed.

(* ------------------------------------------------------------------ *)
(** *** Drawing *)

Section Draw.

(** [Vector], [CoordMap] and the end points of a [Line] are kept elsewhere in
    the repository. *)
Variables Vector CoordMap : Type.
Variable getStartPoint getEndPoint : Line -> Vector.
Variable simToScreen : CoordMap -> Vector -> Vector.
Variable distanceTo : Vector -> Vector -> number.
Variable getX getY : Vector -> number.

(** What [draw] does to the canvas context, in order. *)
Inductive canvas_op : Type :=
| Save
| SetLineDash (segments : list number)
| LineWidth (width : number)
| StrokeStyle (style : string)
| BeginPath
| MoveTo (x y : number)
| LineTo (x y : number)
| Stroke
| Restore.

(** The literal [1e-6]: the double nearest to it, a little below 1/10^6. *)
Definition lit_1e_6 : number :=
  Fin (4722366482869645 # 4722366482869645213696).

(** [DisplayLine.prototype.draw]; [has_setLineDash] says whether the context
    has a [setLineDash] method. *)
Definition draw (d : DisplayLine) (has_setLineDash : bool) (map : CoordMap)
  : list canvas_op :=
  let thickness := getThickness d in
  if num_gtb thickness zero then
    let p1 := simToScreen map (getStartPoint (line_ d)) in
    let p2 := simToScreen map (getEndPoint (line_ d)) in
    let len := distanceTo p1 p2 in
    if num_ltb len lit_1e_6 then []
    else
      let lineDash := getLineDash d in
      [Save]
      ++ (if negb (Nat.eqb (List.length lineDash) 0) && has_setLineDash
          then [SetLineDash lineDash] else [])
      ++ [LineWidth (getThickness d);
          StrokeStyle (getColor d);
          BeginPath;
          MoveTo (getX p1) (getY p1);
          LineTo (getX p2) (getY p2);
          Stroke;
          Restore]
  else [].

Definition is_save (o : canvas_op) : bool :=
  match o with Save => true | _ => false end.
Definition is_restore (o : canvas_op) : bool :=
  match o with Restore => true | _ => false end.
Definition is_stroke (o : canvas_op) : bool :=
  match o with Stroke => true | _ => false end.

(** A line whose thickness is not positive (zero, negative, NaN), or whose
    end points are less than [1e-6] apart on the screen, is not drawn: the
    context is not touched.  Every other line is drawn: one stroke from the
    first end point to the second, in the thickness and colour the accessors
    return, between one [save] and one [restore], with [setLineDash] called
    just when the dash array is not empty and the context has the method. *)
Theorem draw_is_balanced (d : DisplayLine) (has_setLineDash : bool)
    (map : CoordMap) :
  let ops := draw d has_setLineDash map in
  let p1 := simToScreen map (getStartPoint (line_ d)) in
  let p2 := simToScreen map (getEndPoint (line_ d)) in
  (num_gtb (getThickness d) zero = false -> ops = []) /\
  (num_ltb (distanceTo p1 p2) lit_1e_6 = true -> ops = []) /\
  (num_gtb (getThickness d) zero = true ->
   num_ltb (distanceTo p1 p2) lit_1e_6 = false ->
   ops = Save ::
         (if negb (Nat.eqb (List.length (getLineDash d)) 0) && has_setLineDash
          then [SetLineDash (getLineDash d)] else []) ++
         [LineWidth (getThickness d); StrokeStyle (getColor d); BeginPath;
          MoveTo (getX p1) (getY p1); LineTo (getX p2) (getY p2);
          Stroke; Restore]) /\
  List.length (filter is_save ops) = List.length (filter is_restore ops) /\
  (ops <> [] ->
     hd_error ops = Some Save /\
     List.length (filter is_stroke ops) = 1%nat /\
     exists dash,
       ops = Save :: dash ++
             [LineWidth (getThickness d); StrokeStyle (getColor d); BeginPath;
              MoveTo (getX p1) (getY p1); LineTo (getX p2) (getY p2);
              Stroke; Restore] /\
       (dash = [] \/
        dash = [SetLineDash (getLineDash d)] /\ getLineDash d <> [] /\
        has_setLineDash = true)).
Proof.
  intros ops p1 p2. subst ops. unfold draw. fold p1 p2.
  destruct (num_gtb (getThickness d) zero).
  - destruct (num_ltb (distanceTo p1 p2) lit_1e_6).
    + repeat split; auto; try discriminate; try congruence.
    + split; [discriminate|]. split; [discriminate|].
      split; [reflexivity|].
      destruct (getLineDash d) as [|x l] eqn:Hl; cbn [List.length Nat.eqb negb andb].
      * repeat split. exists []. split; auto.
      * destruct has_setLineDash; cbn [andb].
        -- repeat split. exists [SetLineDash (x :: l)]. split; [reflexivity|].
           right. repeat split. discriminate.
        -- repeat split. exists []. split; auto.
  - repeat split; auto; try discriminate; try congruence.
Qed.

End Draw.

End DisplayLineMore.

(* ------------------------------------------------------------------ *)
(** ** PathObserver *)

Module PathObserver.

(** Objects are known by their identity: a reference into the heap. *)
Definition ref := nat.

(** A [NumericalPath], by identity. *)
Definition NumericalPath := nat.

(** The value of a [SimList] event: a NumericalPath or some other SimObject. *)
Inductive SimObject : Type :=
| aNumericalPath (np : NumericalPath)
| anotherSimObject (id : nat).

(** A [Subject] (the SimList, the SimView), by identity. *)
Definition Subject := nat.

(** Event names. *)
Definition OBJECT_ADDED : string := "OBJECT_ADDED".
Definition OBJECT_REMOVED : string := "OBJECT_REMOVED".
Definition SCREEN_RECT_CHANGED : string := "SCREEN_RECT_CHANGED".

Record GenericEvent : Type := mkEvent {
  getSubject : Subject;
  getName : string;
  getValue : SimObject
}.

Definition nameEquals (e : GenericEvent) (name : string) : bool :=
  String.eqb (getName e) name.

(** The [GenericObserver] that [addPath] makes: its function resizes the
    DisplayPath it closes over. *)
Record GenericObserver : Type := mkObserver {
  obs_id : ref;
  obs_displayPath : ref
}.

(** An entry of [memObjs_]. *)
Record memObjects : Type := mkMem {
  simObj : NumericalPath;
  obs : GenericObserver;
  dispPath : ref
}.

(** [opt_expand || 1.1]: zero and NaN count as not given. *)
Definition expansion_or_default (opt_expand : option number) : number :=
  match opt_expand with
  | Some x =>
    match x with
    | NaN => Fin (11 # 10)
    | Fin q => if Qeq_bool q 0 then Fin (11 # 10) else x
    | _ => x
    end
  | None => Fin (11 # 10)
  end.

Section Model.

(** The classes this file uses and the repository keeps elsewhere:
    [ScreenRect], [DoubleRect] and [Vector] with the operations [addPath]
    calls, the bounds of a path, and the [DisplayList] of the SimView. *)
Variables ScreenRect DoubleRect Vector DisplayList : Type.
Variable getBoundsWorld : NumericalPath -> DoubleRect.
Variable rect_scale : DoubleRect -> number -> DoubleRect.
Variable rect_isEmpty : DoubleRect -> bool.
Variable rect_getCenter : DoubleRect -> Vector.
Variable makeCentered : Vector -> number -> number -> DoubleRect.
Variable rect_union : DoubleRect -> DoubleRect -> DoubleRect.

(** [DisplayList.find(np)] asks every display object for its SimObjects, so
    it is given the function that answers; [add], [remove] and [toArray] work
    on references. *)
Variable dl_find :
  DisplayList -> (ref -> list NumericalPath) -> NumericalPath -> option ref.
Variable dl_add : DisplayList -> ref -> DisplayList.
Variable dl_remove : DisplayList -> ref -> DisplayList.
Variable dl_toArray : DisplayList -> list ref.

(** A [DisplayPath] object. *)
Record DisplayPath : Type := mkDisplayPath {
  dp_proto : option ref;
  dp_screenRect : option ScreenRect;
  dp_zIndex : option number;
  dp_paths : list NumericalPath
}.

(** [new DisplayPath(proto)] *)
Definition new_DisplayPath (proto : option ref) : DisplayPath :=
  mkDisplayPath proto None None [].

Definition dp_setScreenRect (r : ScreenRect) (p : DisplayPath) : DisplayPath :=
  mkDisplayPath (dp_proto p) (Some r) (dp_zIndex p) (dp_paths p).
Definition dp_setZIndex (z : number) (p : DisplayPath) : DisplayPath :=
  mkDisplayPath (dp_proto p) (dp_screenRect p) (Some z) (dp_paths p).
Definition dp_addPath (np : NumericalPath) (p : DisplayPath) : DisplayPath :=
  mkDisplayPath (dp_proto p) (dp_screenRect p) (dp_zIndex p) (dp_paths p ++ [np]).

Fixpoint remove_first (np : NumericalPath) (l : list NumericalPath)
  : list NumericalPath :=
  match l with
  | [] => []
  | x :: l' => if Nat.eqb x np then l' else x :: remove_first np l'
  end.

Definition dp_removePath (np : NumericalPath) (p : DisplayPath) : DisplayPath :=
  mkDisplayPath (dp_proto p) (dp_screenRect p) (dp_zIndex p)
                (remove_first np (dp_paths p)).

(** The SimView with its DisplayList, the heap of DisplayPath objects, the
    calls made to [simRectSetter_] (latest first), and the fields of the
    PathObserver. *)
Record World : Type := mkWorld {
  screenRect : ScreenRect;
  displayList_ : DisplayList;
  viewObservers : list GenericObserver;
  heap : ref -> option DisplayPath;
  next_ref : ref;
  simRectCalls : list DoubleRect;
  simView_ : Subject;
  simList_ : Subject;
  simRectSetter_ : bool;
  expansionFactor_ : number;
  memObjs_ : list memObjects;
  protoDisplayPath : option ref
}.

Definition heap_set (h : ref -> option DisplayPath) (r : ref) (p : DisplayPath)
  : ref -> option DisplayPath :=
  fun x => if Nat.eqb x r then Some p else h x.

(** [getSimObjects()] of the display object at a reference. *)
Definition getSimObjects (h : ref -> option DisplayPath) (r : ref)
  : list NumericalPath :=
  match h r with Some p => dp_paths p | None => [] end.

(** [new PathObserver(simList, simView, simRectSetter, opt_expand)], on a
    SimView whose state is [screen], [dl], and a heap [h] used up to [next]. *)
Definition new_PathObserver (simList simView : Subject) (screen : ScreenRect)
    (dl : DisplayList) (h : ref -> option DisplayPath) (next : ref)
    (simRectSetter : bool) (opt_expand : option number) : World :=
  {| screenRect := screen;
     displayList_ := dl;
     viewObservers := [];
     heap := heap_set h next (dp_setZIndex (Fin (-10)) (new_DisplayPath None));
     next_ref := S next;
     simRectCalls := [];
     simView_ := simView;
     simList_ := simList;
     simRectSetter_ := simRectSetter;
     expansionFactor_ := expansion_or_default opt_expand;
     memObjs_ := [];
     protoDisplayPath := Some next |}.

(** [PathObserver.prototype.addPath] *)
Definition addPath (w : World) (np : NumericalPath) : World :=
  match dl_find (displayList_ w) (getSimObjects (heap w)) np with
  | Some _ => w
  | None =>
    let d := next_ref w in
    let displayPath :=
      dp_addPath np
        (dp_setScreenRect (screenRect w) (new_DisplayPath (protoDisplayPath w))) in
    let calls :=
      if simRectSetter_ w then
        let r := rect_scale (getBoundsWorld np) (expansionFactor_ w) in
        let r' :=
          if rect_isEmpty r
          then rect_union r (makeCentered (rect_getCenter r) (Fin 1) (Fin 1))
          else r in
        r' :: simRectCalls w
      else simRectCalls w in
    let o := mkObserver (S d) d in
    {| screenRect := screenRect w;
       displayList_ := dl_add (displayList_ w) d;
       viewObservers := o :: viewObservers w;
       heap := heap_set (heap w) d displayPath;
       next_ref := S (S d);
       simRectCalls := calls;
       simView_ := simView_ w;
       simList_ := simList_ w;
       simRectSetter_ := simRectSetter_ w;
       expansionFactor_ := expansionFactor_ w;
       memObjs_ := memObjs_ w ++ [mkMem np o d];
       protoDisplayPath := protoDisplayPath w |}
  end.

(** The first entry whose [simObj] is [np], and the list without it. *)
Fixpoint take_mem (np : NumericalPath) (l : list memObjects)
  : option (memObjects * list memObjects) :=
  match l with
  | [] => None
  | m :: l' =>
    if Nat.eqb (simObj m) np then Some (m, l')
    else match take_mem np l' with
         | Some (found, rest) => Some (found, m :: rest)
         | None => None
         end
  end.

(** [PathObserver.prototype.removePath] *)
Definition removePath (w : World) (np : NumericalPath) : World :=
  match take_mem np (memObjs_ w) with
  | Some (memObj, rest) =>
    let d := dispPath memObj in
    {| screenRect := screenRect w;
       displayList_ := dl_remove (displayList_ w) d;
       viewObservers :=
         filter (fun o => negb (Nat.eqb (obs_id o) (obs_id (obs memObj))))
                (viewObservers w);
       heap := match heap w d with
               | Some p => heap_set (heap w) d (dp_removePath np p)
               | None => heap w
               end;
       next_ref := next_ref w;
       simRectCalls := simRectCalls w;
       simView_ := simView_ w;
       simList_ := simList_ w;
       simRectSetter_ := simRectSetter_ w;
       expansionFactor_ := expansionFactor_ w;
       memObjs_ := rest;
       protoDisplayPath := protoDisplayPath w |}
  | None => w
  end.

(** [PathObserver.prototype.observe] *)
Definition observe (w : World) (event : GenericEvent) : World :=
  if Nat.eqb (getSubject event) (simList_ w) then
    match getValue event with
    | aNumericalPath np =>
      if nameEquals event OBJECT_ADDED then addPath w np
      else if nameEquals event OBJECT_REMOVED then removePath w np
      else w
    | anotherSimObject _ => w
    end
  else w.

(** What the function of the GenericObserver [o] does with an event. *)
Definition resize_displayPath (w : World) (o : GenericObserver)
    (event : GenericEvent) : World :=
  if Nat.eqb (getSubject event) (simView_ w)
     && nameEquals event SCREEN_RECT_CHANGED then
    match heap w (obs_displayPath o) with
    | Some p =>
      mkWorld (screenRect w) (displayList_ w) (viewObservers w)
              (heap_set (heap w) (obs_displayPath o)
                        (dp_setScreenRect (screenRect w) p))
              (next_ref w) (simRectCalls w) (simView_ w) (simList_ w)
              (simRectSetter_ w) (expansionFactor_ w) (memObjs_ w)
              (protoDisplayPath w)
    | None => w
    end
  else w.

(** The SimView takes the screen rectangle [r] and tells its observers. *)
Definition screenRectChanged (w : World) (r : ScreenRect) : World :=
  let w1 :=
    mkWorld r (displayList_ w) (viewObservers w) (heap w) (next_ref w)
            (simRectCalls w) (simView_ w) (simList_ w) (simRectSetter_ w)
            (expansionFactor_ w) (memObjs_ w) (protoDisplayPath w) in
  fold_left
    (fun v o =>
       resize_displayPath v o
         (mkEvent (simView_ w) SCREEN_RECT_CHANGED (anotherSimObject 0)))
    (viewObservers w1) w1.

(** What happens to a PathObserver: the SimList tells it of an event, or the
    SimView changes its screen rectangle. *)
Inductive happening : Type :=
| Observe (event : GenericEvent)
| ScreenRectChanged (r : ScreenRect).

Definition step (w : World) (e : happening) : World :=
  match e with
  | Observe event => observe w event
  | ScreenRectChanged r => screenRectChanged w r
  end.

Definition run (w : World) (es : list happening) : World := fold_left step es w.

(** A DisplayPath for [np]: a display object that shows the single path
    [np], as those a PathObserver makes do. *)
Definition shows (sims : ref -> list NumericalPath) (np : NumericalPath)
    (d : ref) : bool :=
  match sims d with
  | [x] => Nat.eqb x np
  | _ => false
  end.

(** The DisplayPaths for [np] in the display list. *)
Definition displays_of (w : World) (np : NumericalPath) : list ref :=
  filter (shows (getSimObjects (heap w)) np) (dl_toArray (displayList_ w)).

(** The event the SimList sends when [np] was added to it. *)
Definition added (w : World) (np : NumericalPath) : GenericEvent :=
  mkEvent (simList_ w) OBJECT_ADDED (aNumericalPath np).

(** *** What is assumed of the DisplayList *)

(** [find] overlooks no display object that shows just the path it is asked
    for; [add] puts the object into the list; [remove] takes nothing but
    away. *)
Hypothesis find_none : forall dl sims np,
  dl_find dl sims np = None ->
  forall d, In d (dl_toArray dl) -> sims d <> [np].
Hypothesis add_toArray : forall dl d,
  Permutation (dl_toArray (dl_add dl d)) (d :: dl_toArray dl).
Hypothesis remove_toArray : forall dl d,
  exists gone, Permutation (dl_toArray dl) (gone ++ dl_toArray (dl_remove dl d)).

(** *** The invariant *)

Record good (w : World) : Prop := mkGood {
  good_one : forall np, (List.length (displays_of w np) <= 1)%nat;
  good_mem : forall m, In m (memObjs_ w) ->
             getSimObjects (heap w) (dispPath m) = [simObj m];
  good_listed : forall d, In d (dl_toArray (displayList_ w)) -> (d < next_ref w)%nat;
  good_known : forall m, In m (memObjs_ w) -> (dispPath m < next_ref w)%nat;
  good_distinct : NoDup (map dispPath (memObjs_ w))
}.

Lemma shows_true (sims : ref -> list NumericalPath) (np : NumericalPath) (d : ref) :
  shows sims np d = true <-> sims d = [np].
Proof.
  unfold shows. destruct (sims d) as [|x [|y l]]; split; intro H;
    try discriminate.
  - apply Nat.eqb_eq in H. congruence.
  - inversion H. apply Nat.eqb_refl.
Qed.

Lemma filter_length_perm (A : Type) (f : A -> bool) (l l' : list A) :
  Permutation l l' -> List.length (filter f l) = List.length (filter f l').
Proof.
  induction 1 as [|x l l' _ IH|x y l|l l' l'' _ IH1 _ IH2]; simpl.
  - reflexivity.
  - destruct (f x); simpl; congruence.
  - destruct (f x), (f y); reflexivity.
  - congruence.
Qed.

Lemma filter_length_mono (A : Type) (f g : A -> bool) (l : list A) :
  (forall x, In x l -> f x = true -> g x = true) ->
  (List.length (filter f l) <= List.length (filter g l))%nat.
Proof.
  induction l as [|x l IH]; intro H; simpl; [lia|].
  assert (IH' := IH (fun y Hy => H y (or_intror Hy))).
  destruct (f x) eqn:Hf.
  - rewrite (H x (or_introl eq_refl) Hf). simpl. lia.
  - destruct (g x); simpl; lia.
Qed.

Lemma getSimObjects_set_same (h : ref -> option DisplayPath) (r : ref)
    (p : DisplayPath) :
  getSimObjects (heap_set h r p) r = dp_paths p.
Proof. unfold getSimObjects, heap_set. rewrite Nat.eqb_refl. reflexivity. Qed.

Lemma getSimObjects_set_other (h : ref -> option DisplayPath) (r x : ref)
    (p : DisplayPath) :
  x <> r -> getSimObjects (heap_set h r p) x = getSimObjects h x.
Proof.
  intro Hx. unfold getSimObjects, heap_set.
  destruct (Nat.eqb x r) eqn:E; [|reflexivity].
  apply Nat.eqb_eq in E. contradiction.
Qed.

Lemma take_mem_spec (np : NumericalPath) (l : list memObjects)
    (m : memObjects) (rest : list memObjects) :
  take_mem np l = Some (m, rest) ->
  simObj m = np /\ Permutation l (m :: rest).
Proof.
  revert m rest. induction l as [|x l IH]; intros m rest H; simpl in H;
    [discriminate|].
  destruct (Nat.eqb (simObj x) np) eqn:E.
  - inversion H; subst. apply Nat.eqb_eq in E. auto.
  - destruct (take_mem np l) as [[found r]|]; [|discriminate].
    inversion H; subst. destruct (IH m r eq_refl) as (Hm & Hp).
    split; [assumption|].
    apply Permutation_trans with (x :: m :: r); [|apply perm_swap].
    apply perm_skip. assumption.
Qed.

(** *** addPath *)

Lemma addPath_found (w : World) (np : NumericalPath) :
  dl_find (displayList_ w) (getSimObjects (heap w)) np <> None ->
  addPath w np = w.
Proof.
  intro H. unfold addPath.
  destruct (dl_find (displayList_ w) (getSimObjects (heap w)) np);
    [reflexivity | contradiction].
Qed.

Lemma observe_added (w : World) (np : NumericalPath) :
  observe w (added w np) = addPath w np.
Proof.
  unfold observe, added. simpl. rewrite Nat.eqb_refl. reflexivity.
Qed.

Lemma good_addPath (w : World) (np : NumericalPath) :
  good w -> good (addPath w np).
Proof.
  intros Hw. unfold addPath.
  destruct (dl_find (displayList_ w) (getSimObjects (heap w)) np) eqn:Hfind;
    [assumption|].
  destruct Hw as [Hone Hmem Hlisted Hknown Hdistinct].
  set (d := next_ref w).
  assert (Hold : forall x, (x < d)%nat ->
            getSimObjects
              (heap_set (heap w) d
                 (dp_addPath np
                    (dp_setScreenRect (screenRect w)
                       (new_DisplayPath (protoDisplayPath w))))) x
            = getSimObjects (heap w) x).
  { intros x Hx. apply getSimObjects_set_other. lia. }
  constructor; cbn [displayList_ heap next_ref memObjs_].
  - intro np'. unfold displays_of. cbn [displayList_ heap].
    rewrite (filter_length_perm _ (add_toArray (displayList_ w) d)).
    cbn [filter]. unfold shows at 1. rewrite getSimObjects_set_same.
    cbn [dp_addPath dp_paths dp_setScreenRect new_DisplayPath app].
    assert (Hsame :
      filter (shows (getSimObjects
                (heap_set (heap w) d
                   (dp_addPath np
                      (dp_setScreenRect (screenRect w)
                         (new_DisplayPath (protoDisplayPath w)))))) np')
             (dl_toArray (displayList_ w))
      = displays_of w np').
    { unfold displays_of. apply filter_ext_in. intros x Hx.
      unfold shows. rewrite (Hold x (Hlisted x Hx)). reflexivity. }
    rewrite Hsame.
    destruct (Nat.eqb np np') eqn:E; [|apply Hone].
    apply Nat.eqb_eq in E. subst np'.
    assert (Hnone : displays_of w np = []).
    { unfold displays_of.
      destruct (filter (shows (getSimObjects (heap w)) np)
                       (dl_toArray (displayList_ w))) as [|x l] eqn:Hf;
        [reflexivity|].
      assert (Hin : In x (x :: l)) by (left; reflexivity).
      rewrite <- Hf in Hin. apply filter_In in Hin. destruct Hin as (Hin & Hs).
      apply shows_true in Hs.
      exfalso. exact (@find_none _ _ _ Hfind x Hin Hs). }
    rewrite Hnone. simpl. lia.
  - intros m Hm. apply in_app_or in Hm. destruct Hm as [Hm | [<- | []]].
    + rewrite (Hold _ (Hknown m Hm)). apply Hmem. assumption.
    + cbn [dispPath simObj]. rewrite getSimObjects_set_same. reflexivity.
  - intros x Hx.
    apply (Permutation_in _ (add_toArray (displayList_ w) d)) in Hx.
    destruct Hx as [<- | Hx]; [lia|]. specialize (Hlisted x Hx). lia.
  - intros m Hm. apply in_app_or in Hm. destruct Hm as [Hm | [<- | []]].
    + specialize (Hknown m Hm). lia.
    + cbn [dispPath]. lia.
  - rewrite map_app. cbn [map dispPath].
    apply NoDup_app; [assumption | repeat constructor; simpl; tauto |].
    intros x Hx [<- | []]. apply in_map_iff in Hx.
    destruct Hx as (m & Hd & Hm). specialize (Hknown m Hm). lia.
Qed.

(** *** removePath *)

Lemma good_removePath (w : World) (np : NumericalPath) :
  good w -> good (removePath w np).
Proof.
  intros Hw. unfold removePath.
  destruct (take_mem np (memObjs_ w)) as [[m rest]|] eqn:Htake; [|assumption].
  destruct Hw as [Hone Hmem Hlisted Hknown Hdistinct].
  destruct (take_mem_spec _ _ Htake) as (Hnp & Hperm).
  assert (Hm : In m (memObjs_ w))
    by (apply (Permutation_in _ (Permutation_sym Hperm)); left; reflexivity).
  assert (Hrest : forall x, In x rest -> In x (memObjs_ w))
    by (intros x Hx; apply (Permutation_in _ (Permutation_sym Hperm));
        right; assumption).
  assert (Hnodup : NoDup (dispPath m :: map dispPath rest)).
  { change (NoDup (map dispPath (m :: rest))).
    apply (Permutation_NoDup (Permutation_map dispPath Hperm)). assumption. }
  set (d := dispPath m) in *.
  set (h' := match heap w d with
             | Some p => heap_set (heap w) d (dp_removePath np p)
             | None => heap w
             end).
  assert (Hother : forall x, x <> d ->
            getSimObjects h' x = getSimObjects (heap w) x).
  { intros x Hx. subst h'. destruct (heap w d); [|reflexivity].
    apply getSimObjects_set_other. assumption. }
  assert (Hd : getSimObjects h' d = []).
  { specialize (Hmem m Hm). fold d in Hmem. subst h'.
    unfold getSimObjects in Hmem |- *.
    destruct (heap w d) as [p|] eqn:Hp.
    - unfold heap_set. rewrite Nat.eqb_refl. cbn [dp_removePath dp_paths].
      rewrite Hmem, Hnp. simpl. rewrite Nat.eqb_refl. reflexivity.
    - rewrite Hp. reflexivity. }
  destruct (remove_toArray (displayList_ w) d) as (gone & Hgone).
  constructor; cbn [displayList_ heap next_ref memObjs_]; fold h'.
  - intro np'. unfold displays_of. cbn [displayList_ heap]. fold h'.
    apply Nat.le_trans with
      (List.length (filter (shows (getSimObjects (heap w)) np')
                      (dl_toArray (dl_remove (displayList_ w) d)))).
    + apply filter_length_mono. intros x _ Hx.
      apply shows_true in Hx. apply shows_true.
      destruct (Nat.eq_dec x d) as [-> | Hne].
      * rewrite Hd in Hx. discriminate.
      * rewrite <- (Hother x Hne). assumption.
    + apply Nat.le_trans with (List.length (displays_of w np')); [|apply Hone].
      unfold displays_of. rewrite (filter_length_perm _ Hgone).
      rewrite filter_app, length_app. lia.
  - intros x Hx. rewrite Hother; [apply Hmem, Hrest, Hx|].
    intro Heq. inversion Hnodup as [|? ? Hnotin _]; subst.
    apply Hnotin. rewrite <- Heq. apply in_map. assumption.
  - intros x Hx. apply Hlisted.
    apply (Permutation_in _ (Permutation_sym Hgone)).
    apply in_or_app. right. assumption.
  - intros x Hx. apply Hknown, Hrest, Hx.
  - inversion Hnodup; assumption.
Qed.

(** *** The screen rectangle *)

(** What a change of screen rectangle leaves alone. *)
Definition same_paths (w w' : World) : Prop :=
  displayList_ w' = displayList_ w /\
  (forall x, getSimObjects (heap w') x = getSimObjects (heap w) x) /\
  next_ref w' = next_ref w /\
  memObjs_ w' = memObjs_ w.

Lemma same_paths_good (w w' : World) : same_paths w w' -> good w -> good w'.
Proof.
  intros (Hdl & Hsims & Hnext & Hmemo) [Hone Hmem Hlisted Hknown Hdistinct].
  assert (Hdisp : forall np, displays_of w' np = displays_of w np).
  { intro np. unfold displays_of. rewrite Hdl. apply filter_ext.
    intro x. unfold shows. rewrite Hsims. reflexivity. }
  constructor; rewrite ?Hdl, ?Hnext, ?Hmemo; auto.
  - intro np. rewrite Hdisp. apply Hone.
  - intros m Hm. rewrite Hsims. apply Hmem. assumption.
Qed.

Lemma same_paths_resize (w : World) (o : GenericObserver) (e : GenericEvent) :
  same_paths w (resize_displayPath w o e).
Proof.
  unfold resize_displayPath, same_paths.
  destruct (Nat.eqb (getSubject e) (simView_ w) && nameEquals e SCREEN_RECT_CHANGED);
    [|auto].
  destruct (heap w (obs_displayPath o)) as [p|] eqn:Hp; [|auto].
  cbn [displayList_ heap next_ref memObjs_]. repeat split.
  intro x. unfold getSimObjects, heap_set.
  destruct (Nat.eqb x (obs_displayPath o)) eqn:E; [|reflexivity].
  apply Nat.eqb_eq in E. subst x. rewrite Hp. reflexivity.
Qed.

Lemma same_paths_trans (w1 w2 w3 : World) :
  same_paths w1 w2 -> same_paths w2 w3 -> same_paths w1 w3.
Proof.
  intros (A1 & A2 & A3 & A4) (B1 & B2 & B3 & B4).
  repeat split; congruence.
Qed.

Lemma same_paths_screenRectChanged (w : World) (r : ScreenRect) :
  same_paths w (screenRectChanged w r).
Proof.
  unfold screenRectChanged.
  set (w1 := mkWorld r (displayList_ w) (viewObservers w) (heap w) (next_ref w)
               (simRectCalls w) (simView_ w) (simList_ w) (simRectSetter_ w)
               (expansionFactor_ w) (memObjs_ w) (protoDisplayPath w)).
  assert (H1 : same_paths w w1) by (repeat split).
  generalize (viewObservers w1). revert H1. generalize w1. clear w1.
  intros v Hv l. revert v Hv.
  induction l as [|o l IH]; intros v Hv; simpl; [assumption|].
  apply IH. apply same_paths_trans with v; [assumption|].
  apply same_paths_resize.
Qed.

(** *** Runs *)

Lemma good_observe (w : World) (e : GenericEvent) : good w -> good (observe w e).
Proof.
  intro Hw. unfold observe.
  destruct (Nat.eqb (getSubject e) (simList_ w)); [|assumption].
  destruct (getValue e) as [np|]; [|assumption].
  destruct (nameEquals e OBJECT_ADDED); [apply good_addPath; assumption|].
  destruct (nameEquals e OBJECT_REMOVED); [apply good_removePath|]; assumption.
Qed.

Lemma good_step (w : World) (e : happening) : good w -> good (step w e).
Proof.
  intro Hw. destruct e as [ev|r]; simpl.
  - apply good_observe; assumption.
  - apply (same_paths_good (same_paths_screenRectChanged w r) Hw).
Qed.

Lemma good_run (es : list happening) (w : World) : good w -> good (run w es).
Proof.
  revert w. induction es as [|e es IH]; intros w Hw; simpl; auto.
  apply IH, good_step, Hw.
Qed.

(** A new PathObserver is in order when the display list of its SimView
    holds only objects made before it and no two DisplayPaths for one path. *)
Lemma good_new (simList simView : Subject) (screen : ScreenRect)
    (dl : DisplayList) (h : ref -> option DisplayPath) (next : ref)
    (simRectSetter : bool) (opt_expand : option number) :
  (forall d, In d (dl_toArray dl) -> (d < next)%nat) ->
  (forall np, (List.length (filter (shows (getSimObjects h) np) (dl_toArray dl))
               <= 1)%nat) ->
  good (new_PathObserver simList simView screen dl h next simRectSetter opt_expand).
Proof.
  intros Hlisted Hone. constructor; cbn [new_PathObserver displayList_ heap
    next_ref memObjs_ In map]; try tauto.
  - intro np. unfold displays_of. cbn [new_PathObserver displayList_ heap].
    erewrite filter_ext_in; [apply Hone|].
    intros x Hx. unfold shows. rewrite getSimObjects_set_other; [reflexivity|].
    specialize (Hlisted x Hx). lia.
  - intros d Hd. specialize (Hlisted d Hd). lia.
  - constructor.
Qed.

(** C10. A PathObserver makes no second display of a path.  When
    [displayList_.find(np)] finds a display object, [addPath(np)], and so the
    event [OBJECT_ADDED] for [np], changes nothing: no DisplayPath is made, no
    observer, no call of [simRectSetter_], no entry of [memObjs_]; so it is
    whenever the display list holds a DisplayPath for [np].  And from
    its construction on, through any events, the display list never holds
    more than one DisplayPath for a path, when it held no more than one at
    the start. *)
Theorem addPath_never_duplicates :
  (forall w np,
     dl_find (displayList_ w) (getSimObjects (heap w)) np <> None ->
     addPath w np = w /\ observe w (added w np) = w) /\
  (forall w np,
     displays_of w np <> [] ->
     addPath w np = w /\ observe w (added w np) = w) /\
  (forall simList simView screen dl h next simRectSetter opt_expand,
     (forall d, In d (dl_toArray dl) -> (d < next)%nat) ->
     (forall np, (List.length (filter (shows (getSimObjects h) np) (dl_toArray dl))
                  <= 1)%nat) ->
     forall es np,
       (List.length
          (displays_of
             (run (new_PathObserver simList simView screen dl h next
                     simRectSetter opt_expand) es) np) <= 1)%nat).
Proof.
  assert (Hfound : forall w np,
            dl_find (displayList_ w) (getSimObjects (heap w)) np <> None ->
            addPath w np = w /\ observe w (added w np) = w).
  { intros w np Hfound. rewrite observe_added.
    split; apply addPath_found; assumption. }
  split; [exact Hfound|]. split.
  - intros w np Hshown. apply Hfound. intro Hnone. apply Hshown.
    unfold displays_of.
    destruct (filter (shows (getSimObjects (heap w)) np)
                     (dl_toArray (displayList_ w))) as [|x l] eqn:Hf;
      [reflexivity|].
    assert (Hin : In x (x :: l)) by (left; reflexivity).
    rewrite <- Hf in Hin. apply filter_In in Hin. destruct Hin as (Hin & Hs).
    apply shows_true in Hs.
    exfalso. exact (@find_none _ _ _ Hnone x Hin Hs).
  - intros simList simView screen dl h next setter opt Hlisted Hone es np.
    apply good_one, good_run, good_new; assumption.
Qed.

(* ------------------------------------------------------------------ *)
(** *** What a PathObserver remembers: observers and DisplayPaths *)

(** Every remembered DisplayPath was made by [addPath]: it is an object of
    its own, shows just its path, has the screen rectangle of the SimView and
    the observer's prototype, and the observer made with it is connected, in
    the order of making. *)
Record wired (w : World) : Prop := mkWired {
  wired_fresh : forall m, In m (memObjs_ w) -> (dispPath m < next_ref w)%nat;
  wired_distinct : NoDup (map dispPath (memObjs_ w));
  wired_obs : forall m, In m (memObjs_ w) ->
              obs m = mkObserver (S (dispPath m)) (dispPath m);
  wired_observers : viewObservers w = rev (map obs (memObjs_ w));
  wired_paths : forall m, In m (memObjs_ w) ->
                exists p, heap w (dispPath m) = Some p /\
                          dp_paths p = [simObj m] /\
                          dp_screenRect p = Some (screenRect w) /\
                          dp_proto p = protoDisplayPath w
}.

Lemma heap_set_other (h : ref -> option DisplayPath) (r x : ref) (p : DisplayPath) :
  x <> r -> heap_set h r p x = h x.
Proof.
  intro Hx. unfold heap_set. destruct (Nat.eqb x r) eqn:E; [|reflexivity].
  apply Nat.eqb_eq in E. contradiction.
Qed.

Lemma heap_set_same (h : ref -> option DisplayPath) (r : ref) (p : DisplayPath) :
  heap_set h r p r = Some p.
Proof. unfold heap_set. rewrite Nat.eqb_refl. reflexivity. Qed.

Lemma wired_addPath (w : World) (np : NumericalPath) :
  wired w -> wired (addPath w np).
Proof.
  intro Hw. unfold addPath.
  destruct (dl_find (displayList_ w) (getSimObjects (heap w)) np);
    [exact Hw|].
  destruct Hw as [Hfresh Hdistinct Hobs Hobservers Hpaths].
  set (d := next_ref w).
  constructor; cbn [memObjs_ next_ref viewObservers heap screenRect
                    protoDisplayPath].
  - intros m Hm. apply in_app_or in Hm. destruct Hm as [Hm | [<- | []]].
    + specialize (Hfresh m Hm). lia.
    + cbn [dispPath]. lia.
  - rewrite map_app. cbn [map dispPath].
    apply NoDup_app; [assumption | repeat constructor; simpl; tauto |].
    intros x Hx [<- | []]. apply in_map_iff in Hx.
    destruct Hx as (m & Hd & Hm). specialize (Hfresh m Hm). lia.
  - intros m Hm. apply in_app_or in Hm. destruct Hm as [Hm | [<- | []]];
      [apply Hobs; assumption | reflexivity].
  - rewrite map_app, rev_app_distr, Hobservers. reflexivity.
  - intros m Hm. apply in_app_or in Hm. destruct Hm as [Hm | [<- | []]].
    + destruct (Hpaths m Hm) as (p & Hp & Hrest). exists p.
      split; [|exact Hrest].
      rewrite heap_set_other; [exact Hp|]. specialize (Hfresh m Hm). lia.
    + cbn [dispPath simObj]. eexists. rewrite heap_set_same.
      split; [reflexivity|]. repeat split.
Qed.

(** Taking an entry out of [memObjs_] and its observer out of the SimView. *)
Lemma take_mem_observers (np : NumericalPath) (l : list memObjects)
    (m : memObjects) (rest : list memObjects) :
  take_mem np l = Some (m, rest) ->
  NoDup (map dispPath l) ->
  (forall x, In x l -> obs x = mkObserver (S (dispPath x)) (dispPath x)) ->
  filter (fun o => negb (Nat.eqb (obs_id o) (obs_id (obs m)))) (map obs l)
  = map obs rest.
Proof.
  revert m rest. induction l as [|x l IH]; intros m rest Htake Hnd Hshape;
    simpl in Htake; [discriminate|].
  inversion Hnd as [|? ? Hnotin Hnd']; subst.
  assert (Hkeep : forall y, In y l ->
            negb (Nat.eqb (obs_id (obs y)) (obs_id (obs x))) = true).
  { intros y Hy. rewrite (Hshape y (or_intror Hy)), (Hshape x (or_introl eq_refl)).
    cbn [obs_id]. apply negb_true_iff, Nat.eqb_neq. intro Heq.
    apply Hnotin. injection Heq as Heq. rewrite <- Heq. apply in_map, Hy. }
  destruct (Nat.eqb (simObj x) np) eqn:E.
  - inversion Htake; subst. cbn [map filter]. rewrite Nat.eqb_refl. cbn [negb].
    clear -Hkeep. induction rest as [|y rest IH]; [reflexivity|].
    cbn [map filter]. rewrite (Hkeep y (or_introl eq_refl)).
    rewrite IH; [reflexivity|]. intros z Hz. apply Hkeep. right. exact Hz.
  - destruct (take_mem np l) as [[found r]|] eqn:Ht; [|discriminate].
    inversion Htake; subst.
    destruct (take_mem_spec _ _ Ht) as (_ & Hperm).
    assert (Hm : In m l)
      by (apply (Permutation_in _ (Permutation_sym Hperm)); left; reflexivity).
    cbn [map filter].
    assert (Hx : negb (Nat.eqb (obs_id (obs x)) (obs_id (obs m))) = true).
    { rewrite (Hshape m (or_intror Hm)), (Hshape x (or_introl eq_refl)).
      cbn [obs_id]. apply negb_true_iff, Nat.eqb_neq. intro Heq.
      apply Hnotin. injection Heq as Heq. rewrite Heq. apply in_map, Hm. }
    rewrite Hx. f_equal.
    apply IH; auto. intros y Hy. apply Hshape. right. exact Hy.
Qed.

Lemma wired_removePath (w : World) (np : NumericalPath) :
  wired w -> wired (removePath w np).
Proof.
  intro Hw. unfold removePath.
  destruct (take_mem np (memObjs_ w)) as [[m rest]|] eqn:Htake; [|exact Hw].
  destruct Hw as [Hfresh Hdistinct Hobs Hobservers Hpaths].
  destruct (take_mem_spec _ _ Htake) as (Hnp & Hperm).
  assert (Hrest : forall x, In x rest -> In x (memObjs_ w))
    by (intros x Hx; apply (Permutation_in _ (Permutation_sym Hperm));
        right; assumption).
  assert (Hnodup : NoDup (dispPath m :: map dispPath rest)).
  { change (NoDup (map dispPath (m :: rest))).
    apply (Permutation_NoDup (Permutation_map dispPath Hperm)). assumption. }
  constructor; cbn [memObjs_ next_ref viewObservers heap screenRect
                    protoDisplayPath].
  - intros x Hx. apply Hfresh, Hrest, Hx.
  - inversion Hnodup; assumption.
  - intros x Hx. apply Hobs, Hrest, Hx.
  - rewrite Hobservers, filter_rev. f_equal.
    eapply take_mem_observers; eassumption.
  - intros x Hx. destruct (Hpaths x (Hrest x Hx)) as (p & Hp & Hrest').
    exists p. split; [|exact Hrest'].
    assert (Hne : dispPath x <> dispPath m).
    { intro Heq. inversion Hnodup as [|? ? Hnotin _]; subst.
      apply Hnotin. rewrite <- Heq. apply in_map. exact Hx. }
    destruct (heap w (dispPath m)); [|exact Hp].
    rewrite heap_set_other; assumption.
Qed.

(** What telling the observers of a new screen rectangle does to the heap. *)
Lemma resize_all (l : list GenericObserver) (v : World) :
  let e := mkEvent (simView_ v) SCREEN_RECT_CHANGED (anotherSimObject 0) in
  let v' := fold_left (fun u o => resize_displayPath u o e) l v in
  screenRect v' = screenRect v /\ displayList_ v' = displayList_ v /\
  viewObservers v' = viewObservers v /\ next_ref v' = next_ref v /\
  memObjs_ v' = memObjs_ v /\ protoDisplayPath v' = protoDisplayPath v /\
  simRectCalls v' = simRectCalls v /\ simRectSetter_ v' = simRectSetter_ v /\
  forall x,
    heap v' x =
    if existsb (Nat.eqb x) (map obs_displayPath l)
    then option_map (dp_setScreenRect (screenRect v)) (heap v x)
    else heap v x.
Proof.
  revert v. induction l as [|o l IH]; intro v; cbn zeta.
  - cbn [fold_left map existsb]. repeat split.
  - cbn [fold_left map existsb].
    set (e := mkEvent (simView_ v) SCREEN_RECT_CHANGED (anotherSimObject 0)).
    set (v1 := resize_displayPath v o e).
    assert (H1 : screenRect v1 = screenRect v /\
                 displayList_ v1 = displayList_ v /\
                 viewObservers v1 = viewObservers v /\
                 next_ref v1 = next_ref v /\ memObjs_ v1 = memObjs_ v /\
                 protoDisplayPath v1 = protoDisplayPath v /\
                 simRectCalls v1 = simRectCalls v /\
                 simRectSetter_ v1 = simRectSetter_ v /\
                 simView_ v1 = simView_ v /\
                 forall x, heap v1 x =
                   if Nat.eqb x (obs_displayPath o)
                   then option_map (dp_setScreenRect (screenRect v)) (heap v x)
                   else heap v x).
    { subst v1 e. unfold resize_displayPath, nameEquals. cbn [getSubject getName].
      rewrite Nat.eqb_refl, String.eqb_refl. cbn [andb].
      destruct (heap v (obs_displayPath o)) as [p|] eqn:Hp;
        cbn [screenRect displayList_ viewObservers next_ref memObjs_
             protoDisplayPath simRectCalls simRectSetter_ simView_ heap];
        repeat split; intro x.
      - unfold heap_set. destruct (Nat.eqb x (obs_displayPath o)) eqn:E;
          [|reflexivity].
        apply Nat.eqb_eq in E. subst x. rewrite Hp. reflexivity.
      - destruct (Nat.eqb x (obs_displayPath o)) eqn:E; [|reflexivity].
        apply Nat.eqb_eq in E. subst x. rewrite Hp. reflexivity. }
    destruct H1 as (A1 & A2 & A3 & A4 & A5 & A6 & A7 & A8 & A9 & Aheap).
    specialize (IH v1). cbn zeta in IH. rewrite A9 in IH. fold e in IH.
    destruct IH as (B1 & B2 & B3 & B4 & B5 & B6 & B7 & B8 & Bheap).
    repeat split; try congruence.
    intro x. rewrite Bheap, A1, Aheap.
    destruct (Nat.eqb x (obs_displayPath o)) eqn:E; cbn [orb];
      destruct (existsb (Nat.eqb x) (map obs_displayPath l)); try reflexivity.
    destruct (heap v x); reflexivity.
Qed.

Lemma wired_screenRectChanged (w : World) (r : ScreenRect) :
  wired w -> wired (screenRectChanged w r).
Proof.
  intros [Hfresh Hdistinct Hobs Hobservers Hpaths]. unfold screenRectChanged.
  set (w1 := mkWorld r (displayList_ w) (viewObservers w) (heap w) (next_ref w)
               (simRectCalls w) (simView_ w) (simList_ w) (simRectSetter_ w)
               (expansionFactor_ w) (memObjs_ w) (protoDisplayPath w)).
  pose proof (resize_all (viewObservers w1) w1) as H. cbn zeta in H.
  change (simView_ w1) with (simView_ w) in H.
  destruct H as (B1 & B2 & B3 & B4 & B5 & B6 & _ & _ & Bheap).
  constructor; rewrite ?B1, ?B3, ?B4, ?B5, ?B6; cbn [w1 memObjs_ next_ref
    viewObservers screenRect protoDisplayPath]; auto.
  intros m Hm. destruct (Hpaths m Hm) as (p & Hp & Hpp & _ & Hproto).
  exists (dp_setScreenRect r p). rewrite Bheap.
  assert (Hin : existsb (Nat.eqb (dispPath m))
                  (map obs_displayPath (viewObservers w1)) = true).
  { apply existsb_exists. exists (dispPath m). split; [|apply Nat.eqb_refl].
    cbn [w1 viewObservers]. rewrite Hobservers. apply in_map_iff.
    exists (obs m). split; [rewrite (Hobs m Hm); reflexivity|].
    apply -> in_rev. apply in_map. exact Hm. }
  rewrite Hin. cbn [w1 heap screenRect]. rewrite Hp. repeat split; auto.
Qed.

Lemma wired_step (w : World) (e : happening) : wired w -> wired (step w e).
Proof.
  intro Hw. destruct e as [ev|r]; cbn [step].
  - unfold observe.
    destruct (Nat.eqb (getSubject ev) (simList_ w)); [|exact Hw].
    destruct (getValue ev) as [np|]; [|exact Hw].
    destruct (nameEquals ev OBJECT_ADDED); [apply wired_addPath, Hw|].
    destruct (nameEquals ev OBJECT_REMOVED); [apply wired_removePath, Hw|exact Hw].
  - apply wired_screenRectChanged, Hw.
Qed.

Lemma wired_run (es : list happening) (w : World) : wired w -> wired (run w es).
Proof.
  revert w. induction es as [|e es IH]; intros w Hw; simpl; auto.
  apply IH, wired_step, Hw.
Qed.

Lemma wired_new (simList simView : Subject) (screen : ScreenRect)
    (dl : DisplayList) (h : ref -> option DisplayPath) (next : ref)
    (simRectSetter : bool) (opt_expand : option number) :
  wired (new_PathObserver simList simView screen dl h next simRectSetter opt_expand).
Proof.
  constructor; cbn [new_PathObserver memObjs_ viewObservers map rev In];
    try tauto. constructor.
Qed.

(** From the construction of a PathObserver on, the observers it has
    connected to the SimView are exactly those it remembers in [memObjs_],
    one for each DisplayPath it remembers, each resizing its own DisplayPath:
    [removePath] disconnects the observer of the path it removes and no
    other, and no observer outlives its DisplayPath. *)
Theorem observers_follow_memObjs (simList simView : Subject) (screen : ScreenRect)
    (dl : DisplayList) (h : ref -> option DisplayPath) (next : ref)
    (simRectSetter : bool) (opt_expand : option number) (es : list happening) :
  let w := run (new_PathObserver simList simView screen dl h next
                  simRectSetter opt_expand) es in
  Permutation (viewObservers w) (map obs (memObjs_ w)) /\
  map obs_displayPath (map obs (memObjs_ w)) = map dispPath (memObjs_ w) /\
  NoDup (map dispPath (memObjs_ w)).
Proof.
  intro w.
  destruct (wired_run es
              (wired_new simList simView screen dl h next simRectSetter opt_expand))
    as [_ Hdistinct Hobs Hobservers _].
  fold w in Hobservers, Hdistinct, Hobs.
  split; [|split; [|exact Hdistinct]].
  - rewrite Hobservers. apply Permutation_sym, Permutation_rev.
  - rewrite map_map. apply map_ext_in. intros m Hm.
    rewrite (Hobs m Hm). reflexivity.
Qed.

(** Every DisplayPath a PathObserver remembers shows just the path it was
    made for, has the prototype of the observer, and has the screen rectangle
    the SimView has now, however often that changed since; and the observer
    made with it resizes this DisplayPath. *)
Theorem remembered_paths_are_current (simList simView : Subject)
    (screen : ScreenRect) (dl : DisplayList) (h : ref -> option DisplayPath)
    (next : ref) (simRectSetter : bool) (opt_expand : option number)
    (es : list happening) (m : memObjects) :
  let w := run (new_PathObserver simList simView screen dl h next
                  simRectSetter opt_expand) es in
  In m (memObjs_ w) ->
  exists p,
    heap w (dispPath m) = Some p /\
    dp_paths p = [simObj m] /\
    dp_screenRect p = Some (screenRect w) /\
    dp_proto p = protoDisplayPath w /\
    obs_displayPath (obs m) = dispPath m.
Proof.
  intros w Hm.
  destruct (wired_run es
              (wired_new simList simView screen dl h next simRectSetter opt_expand))
    as [_ _ Hobs _ Hpaths].
  fold w in Hobs, Hpaths.
  destruct (Hpaths m Hm) as (p & Hp & Hpp & Hr & Hproto).
  exists p. repeat split; auto. rewrite (Hobs m Hm). reflexivity.
Qed.

(* ------------------------------------------------------------------ *)
(** *** Without a simRectSetter *)

Lemma step_simRectSetter (w : World) (e : happening) :
  simRectSetter_ (step w e) = simRectSetter_ w /\
  (simRectSetter_ w = false -> simRectCalls (step w e) = simRectCalls w).
Proof.
  destruct e as [ev|r]; cbn [step].
  - unfold observe.
    destruct (Nat.eqb (getSubject ev) (simList_ w)); [|auto].
    destruct (getValue ev) as [np|]; [|auto].
    destruct (nameEquals ev OBJECT_ADDED).
    + unfold addPath.
      destruct (dl_find (displayList_ w) (getSimObjects (heap w)) np); [auto|].
      cbn [simRectSetter_ simRectCalls]. split; [reflexivity|].
      intros ->. reflexivity.
    + destruct (nameEquals ev OBJECT_REMOVED); [|auto].
      unfold removePath. destruct (take_mem np (memObjs_ w)) as [[m rest]|]; auto.
  - unfold screenRectChanged.
    match goal with |- context [fold_left _ (viewObservers ?v) ?v] =>
      pose proof (resize_all (viewObservers v) v) as H end.
    cbn zeta in H. cbn [simView_] in H.
    destruct H as (_ & _ & _ & _ & _ & _ & B7 & B8 & _).
    cbn [simRectCalls simRectSetter_] in B7, B8. auto.
Qed.

(** A PathObserver made with [simRectSetter = null] resizes nothing: no call
    of a setter is ever recorded, whatever paths come and go. *)
Theorem no_simRectSetter_no_resize (w : World) (es : list happening) :
  simRectSetter_ w = false -> simRectCalls (run w es) = simRectCalls w.
Proof.
  revert w. induction es as [|e es IH]; intros w Hw; simpl; [reflexivity|].
  destruct (step_simRectSetter w e) as (Hs & Hc).
  rewrite IH; [apply Hc, Hw | rewrite Hs; exact Hw].
Qed.

(* ------------------------------------------------------------------ *)
(** *** The expansion factor *)

Lemma resize_expansionFactor (e : GenericEvent) (l : list GenericObserver)
    (v : World) :
  expansionFactor_ (fold_left (fun u o => resize_displayPath u o e) l v)
  = expansionFactor_ v.
Proof.
  revert v. induction l as [|o l IH]; intro v; [reflexivity|].
  cbn [fold_left]. rewrite IH. unfold resize_displayPath.
  destruct (_ && _); [|reflexivity].
  destruct (heap v (obs_displayPath o)); reflexivity.
Qed.

Lemma step_expansionFactor (w : World) (e : happening) :
  expansionFactor_ (step w e) = expansionFactor_ w.
Proof.
  destruct e as [ev|r]; cbn [step].
  - unfold observe.
    destruct (Nat.eqb (getSubject ev) (simList_ w)); [|reflexivity].
    destruct (getValue ev) as [np|]; [|reflexivity].
    destruct (nameEquals ev OBJECT_ADDED).
    + unfold addPath.
      destruct (dl_find (displayList_ w) (getSimObjects (heap w)) np);
        reflexivity.
    + destruct (nameEquals ev OBJECT_REMOVED); [|reflexivity].
      unfold removePath. destruct (take_mem np (memObjs_ w)) as [[m rest]|];
        reflexivity.
  - unfold screenRectChanged. cbv zeta. rewrite resize_expansionFactor.
    reflexivity.
Qed.

(** The expansion factor of a PathObserver is never 0 and never NaN: the
    constructor takes 1.1 when no factor is given and also when the factor
    given is 0 or NaN ([opt_expand || 1.1]); any other number given, negative
    or infinite too, is kept; and no event changes the factor. *)
Theorem expansionFactor_never_zero (simList simView : Subject)
    (screen : ScreenRect) (dl : DisplayList) (h : ref -> option DisplayPath)
    (next : ref) (simRectSetter : bool) (opt_expand : option number)
    (es : list happening) :
  let w := run (new_PathObserver simList simView screen dl h next
                  simRectSetter opt_expand) es in
  expansionFactor_ w <> NaN /\
  num_eqb (expansionFactor_ w) zero = false /\
  expansionFactor_ w
  = match opt_expand with
    | Some x => if num_eqb x zero || negb (num_eqb x x)
                then Fin (11 # 10) else x
    | None => Fin (11 # 10)
    end.
Proof.
  intro w.
  assert (Hkeep : forall v, expansionFactor_ (run v es) = expansionFactor_ v).
  { induction es as [|e es IH]; intro v; [reflexivity|].
    cbn [run fold_left]. change (fold_left step es (step v e))
      with (run (step v e) es). rewrite IH. apply step_expansionFactor. }
  subst w. rewrite Hkeep. cbn [new_PathObserver expansionFactor_].
  unfold expansion_or_default, num_eqb, zero.
  destruct opt_expand as [[| | |q]|]; cbn [orb negb];
    try (repeat split; discriminate).
  destruct (Qeq_bool q 0) eqn:Hq; cbn [orb].
  - repeat split; discriminate.
  - rewrite Hq. rewrite (proj2 (Qeq_bool_iff q q) (Qeq_refl q)). cbn [negb].
    repeat split. discriminate.
Qed.

(* ------------------------------------------------------------------ *)
(** *** The display list in step with the SimList *)

(** More of what is assumed of the DisplayList: what [find] returns is in the
    list and has the path as its first SimObject; [remove] of an object of
    the list takes out one occurrence of it. *)
Hypothesis find_some : forall dl sims np d,
  dl_find dl sims np = Some d ->
  In d (dl_toArray dl) /\ exists rest, sims d = np :: rest.
Hypothesis remove_listed : forall dl d,
  In d (dl_toArray dl) ->
  Permutation (dl_toArray dl) (d :: dl_toArray (dl_remove dl d)).

(** The paths of a SimList that tells of its changes, in the order they were
    added: what the events say, with no regard to any display. *)
Definition follow (simList : Subject) (l : list NumericalPath) (e : happening)
  : list NumericalPath :=
  match e with
  | Observe event =>
    if Nat.eqb (getSubject event) simList then
      match getValue event with
      | aNumericalPath np =>
        if nameEquals event OBJECT_ADDED then
          if existsb (Nat.eqb np) l then l else l ++ [np]
        else if nameEquals event OBJECT_REMOVED then remove_first np l
        else l
      | anotherSimObject _ => l
      end
    else l
  | ScreenRectChanged _ => l
  end.

Definition tracked (simList : Subject) (es : list happening)
  : list NumericalPath :=
  fold_left (follow simList) es [].

(** The display list holds the DisplayPaths remembered and the objects [dl0]
    it held at the start, which show no path; no path is remembered twice. *)
Record in_step (dl0 : DisplayList) (w : World) : Prop := mkInStep {
  in_step_wired : wired w;
  in_step_listed : Permutation (dl_toArray (displayList_ w))
                     (map dispPath (memObjs_ w) ++ dl_toArray dl0);
  in_step_once : NoDup (map simObj (memObjs_ w));
  in_step_old : forall d, In d (dl_toArray dl0) ->
                (d < next_ref w)%nat /\ getSimObjects (heap w) d = [] /\
                ~ In d (map dispPath (memObjs_ w))
}.

Lemma mem_shows (w : World) (m : memObjects) :
  wired w -> In m (memObjs_ w) ->
  getSimObjects (heap w) (dispPath m) = [simObj m].
Proof.
  intros Hw Hm. destruct (wired_paths Hw m Hm) as (p & Hp & Hpp & _).
  unfold getSimObjects. rewrite Hp. exact Hpp.
Qed.

Lemma listed_cases (dl0 : DisplayList) (w : World) (d : ref) :
  in_step dl0 w -> In d (dl_toArray (displayList_ w)) ->
  getSimObjects (heap w) d = [] \/
  exists m, In m (memObjs_ w) /\ dispPath m = d /\
            getSimObjects (heap w) d = [simObj m].
Proof.
  intros [Hw Hl _ Hold] Hd.
  apply (Permutation_in _ Hl) in Hd. apply in_app_or in Hd.
  destruct Hd as [Hd | Hd].
  - right. apply in_map_iff in Hd. destruct Hd as (m & <- & Hm).
    exists m. repeat split; auto. apply mem_shows; assumption.
  - left. apply (Hold d Hd).
Qed.

Lemma existsb_eqb_In (np : NumericalPath) (l : list NumericalPath) :
  existsb (Nat.eqb np) l = true <-> In np l.
Proof.
  rewrite existsb_exists. split.
  - intros (x & Hx & E). apply Nat.eqb_eq in E. subst. exact Hx.
  - intro H. exists np. split; [exact H | apply Nat.eqb_refl].
Qed.

(** [find] finds a display object for [np] just when [np] is remembered. *)
Lemma find_remembered (dl0 : DisplayList) (w : World) (np : NumericalPath) :
  in_step dl0 w ->
  match dl_find (displayList_ w) (getSimObjects (heap w)) np with
  | Some _ => true
  | None => false
  end = existsb (Nat.eqb np) (map simObj (memObjs_ w)).
Proof.
  intro Hs.
  destruct (dl_find (displayList_ w) (getSimObjects (heap w)) np) as [d|] eqn:Hf.
  - symmetry. apply existsb_eqb_In.
    destruct (@find_some _ _ _ _ Hf) as (Hd & rest & Hshow).
    destruct (@listed_cases dl0 w d Hs Hd) as [Hnone | (m & Hm & _ & Hone)].
    + rewrite Hnone in Hshow. discriminate.
    + rewrite Hone in Hshow. injection Hshow as Heq _. rewrite <- Heq.
      apply in_map. exact Hm.
  - symmetry. apply not_true_is_false. intro Hin. apply existsb_eqb_In in Hin.
    apply in_map_iff in Hin. destruct Hin as (m & Hnp & Hm).
    destruct Hs as [Hw Hl _ _].
    apply (@find_none _ _ _ Hf (dispPath m)).
    + apply (Permutation_in _ (Permutation_sym Hl)). apply in_or_app. left.
      apply in_map. exact Hm.
    + rewrite (@mem_shows w m Hw Hm). rewrite Hnp. reflexivity.
Qed.

Lemma in_step_addPath (dl0 : DisplayList) (w : World) (np : NumericalPath) :
  in_step dl0 w ->
  in_step dl0 (addPath w np) /\
  map simObj (memObjs_ (addPath w np))
  = if existsb (Nat.eqb np) (map simObj (memObjs_ w))
    then map simObj (memObjs_ w) else map simObj (memObjs_ w) ++ [np].
Proof.
  intro Hs. pose proof (@find_remembered dl0 w np Hs) as Hfind.
  pose proof (@wired_addPath w np (in_step_wired Hs)) as Hwired.
  unfold addPath in *.
  destruct (dl_find (displayList_ w) (getSimObjects (heap w)) np) as [d|] eqn:Hf.
  - rewrite <- Hfind. split; [exact Hs | reflexivity].
  - rewrite <- Hfind. destruct Hs as [Hw Hl Honce Hold].
    cbn [memObjs_]. rewrite map_app. cbn [map simObj]. split; [|reflexivity].
    constructor; cbn [memObjs_ displayList_ next_ref heap].
    + exact Hwired.
    + rewrite map_app. cbn [map dispPath].
      eapply perm_trans; [apply add_toArray|].
      rewrite <- app_assoc. cbn [app]. apply Permutation_cons_app.
      exact Hl.
    + rewrite map_app. cbn [map simObj].
      apply NoDup_app; [assumption | repeat constructor; simpl; tauto |].
      intros x Hx [<- | []]. apply existsb_eqb_In in Hx.
      rewrite Hx in Hfind. discriminate.
    + intros d Hd. destruct (Hold d Hd) as (Hlt & Hnone & Hnot).
      split; [lia|]. split.
      * rewrite getSimObjects_set_other; [exact Hnone | lia].
      * rewrite map_app. cbn [map dispPath]. intro Hin.
        apply in_app_or in Hin. destruct Hin as [Hin | [Heq | []]];
          [exact (Hnot Hin) | lia].
Qed.

Lemma take_mem_simObj (np : NumericalPath) (l : list memObjects) :
  match take_mem np l with
  | Some (_, rest) => map simObj rest
  | None => map simObj l
  end = remove_first np (map simObj l).
Proof.
  induction l as [|x l IH]; [reflexivity|]. cbn [take_mem map remove_first].
  destruct (Nat.eqb (simObj x) np); [reflexivity|].
  destruct (take_mem np l) as [[found rest]|]; cbn [map]; rewrite <- IH;
    reflexivity.
Qed.

Lemma in_step_removePath (dl0 : DisplayList) (w : World) (np : NumericalPath) :
  in_step dl0 w ->
  in_step dl0 (removePath w np) /\
  map simObj (memObjs_ (removePath w np))
  = remove_first np (map simObj (memObjs_ w)).
Proof.
  intro Hs. pose proof (@wired_removePath w np (in_step_wired Hs)) as Hwired.
  pose proof (take_mem_simObj np (memObjs_ w)) as Hsim.
  unfold removePath in *.
  destruct (take_mem np (memObjs_ w)) as [[m rest]|] eqn:Htake;
    [|split; [exact Hs | exact Hsim]].
  cbn [memObjs_]. split; [|exact Hsim].
  destruct Hs as [Hw Hl Honce Hold].
  destruct (take_mem_spec _ _ Htake) as (Hnp & Hperm).
  assert (Hm : In m (memObjs_ w))
    by (apply (Permutation_in _ (Permutation_sym Hperm)); left; reflexivity).
  assert (Hrest : forall x, In x rest -> In x (memObjs_ w))
    by (intros x Hx; apply (Permutation_in _ (Permutation_sym Hperm));
        right; assumption).
  assert (Hdistinct : NoDup (dispPath m :: map dispPath rest)).
  { change (NoDup (map dispPath (m :: rest))).
    apply (Permutation_NoDup (Permutation_map dispPath Hperm)).
    apply (wired_distinct Hw). }
  constructor; cbn [memObjs_ displayList_ next_ref heap].
  - exact Hwired.
  - apply Permutation_cons_inv with (a := dispPath m).
    eapply perm_trans; [apply Permutation_sym, remove_listed|].
    + apply (Permutation_in _ (Permutation_sym Hl)). apply in_or_app. left.
      apply in_map. exact Hm.
    + eapply perm_trans; [exact Hl|].
      change (dispPath m :: map dispPath rest ++ dl_toArray dl0)
        with (map dispPath (m :: rest) ++ dl_toArray dl0).
      apply Permutation_app_tail, Permutation_map. exact Hperm.
  - assert (H : NoDup (map simObj (m :: rest)))
      by (apply (Permutation_NoDup (Permutation_map simObj Hperm)); assumption).
    inversion H; assumption.
  - intros d Hd. destruct (Hold d Hd) as (Hlt & Hnone & Hnot).
    split; [exact Hlt|]. split.
    + destruct (heap w (dispPath m)); [|exact Hnone].
      rewrite getSimObjects_set_other; [exact Hnone|].
      intros ->. apply Hnot. apply in_map. exact Hm.
    + intro Hin. apply Hnot. apply in_map_iff in Hin.
      destruct Hin as (x & <- & Hx). apply in_map, Hrest, Hx.
Qed.

Lemma in_step_screenRectChanged (dl0 : DisplayList) (w : World) (r : ScreenRect) :
  in_step dl0 w -> in_step dl0 (screenRectChanged w r).
Proof.
  intros [Hw Hl Honce Hold].
  destruct (same_paths_screenRectChanged w r) as (Hdl & Hsims & Hnext & Hmem).
  constructor; rewrite ?Hdl, ?Hmem, ?Hnext; auto.
  - apply wired_screenRectChanged, Hw.
  - intros d Hd. rewrite Hsims. apply Hold, Hd.
Qed.

Lemma resize_simList (e : GenericEvent) (l : list GenericObserver) (v : World) :
  simList_ (fold_left (fun u o => resize_displayPath u o e) l v) = simList_ v.
Proof.
  revert v. induction l as [|o l IH]; intro v; [reflexivity|].
  cbn [fold_left]. rewrite IH. unfold resize_displayPath.
  destruct (_ && _); [|reflexivity].
  destruct (heap v (obs_displayPath o)); reflexivity.
Qed.

Lemma step_simList (w : World) (e : happening) : simList_ (step w e) = simList_ w.
Proof.
  destruct e as [ev|r]; cbn [step].
  - unfold observe.
    destruct (Nat.eqb (getSubject ev) (simList_ w)); [|reflexivity].
    destruct (getValue ev) as [np|]; [|reflexivity].
    destruct (nameEquals ev OBJECT_ADDED).
    + unfold addPath.
      destruct (dl_find (displayList_ w) (getSimObjects (heap w)) np);
        reflexivity.
    + destruct (nameEquals ev OBJECT_REMOVED); [|reflexivity].
      unfold removePath. destruct (take_mem np (memObjs_ w)) as [[m rest]|];
        reflexivity.
  - unfold screenRectChanged. cbv zeta. rewrite resize_simList. reflexivity.
Qed.

Lemma in_step_step (dl0 : DisplayList) (w : World) (e : happening) :
  in_step dl0 w ->
  in_step dl0 (step w e) /\
  map simObj (memObjs_ (step w e))
  = follow (simList_ w) (map simObj (memObjs_ w)) e.
Proof.
  intro Hs. destruct e as [ev|r]; cbn [step follow].
  - unfold observe.
    destruct (Nat.eqb (getSubject ev) (simList_ w)); [|auto].
    destruct (getValue ev) as [np|]; [|auto].
    destruct (nameEquals ev OBJECT_ADDED); [apply in_step_addPath, Hs|].
    destruct (nameEquals ev OBJECT_REMOVED); [apply in_step_removePath, Hs|auto].
  - split; [apply in_step_screenRectChanged, Hs|].
    destruct (same_paths_screenRectChanged w r) as (_ & _ & _ & ->). reflexivity.
Qed.

Lemma in_step_run (dl0 : DisplayList) (es : list happening) (w : World) :
  in_step dl0 w ->
  in_step dl0 (run w es) /\
  map simObj (memObjs_ (run w es))
  = fold_left (follow (simList_ w)) es (map simObj (memObjs_ w)).
Proof.
  revert w. induction es as [|e es IH]; intros w Hs; [auto|].
  cbn [run fold_left]. destruct (@in_step_step dl0 w e Hs) as (Hs' & Hfollow).
  destruct (IH _ Hs') as (Hr & Hmap). split; [exact Hr|].
  unfold run in Hmap. rewrite Hmap, step_simList, Hfollow. reflexivity.
Qed.

Lemma in_step_new (simList simView : Subject) (screen : ScreenRect)
    (dl : DisplayList) (h : ref -> option DisplayPath) (next : ref)
    (simRectSetter : bool) (opt_expand : option number) :
  (forall d, In d (dl_toArray dl) ->
             (d < next)%nat /\ getSimObjects h d = []) ->
  in_step dl
    (new_PathObserver simList simView screen dl h next simRectSetter opt_expand).
Proof.
  intro Hold. constructor.
  - apply wired_new.
  - apply Permutation_refl.
  - constructor.
  - intros d Hd. destruct (Hold d Hd) as (Hlt & Hnone).
    cbn [new_PathObserver next_ref heap memObjs_ map In].
    split; [lia|]. split; [|tauto].
    rewrite getSimObjects_set_other; [exact Hnone | lia].
Qed.

Lemma count_once (np : NumericalPath) (l : list NumericalPath) :
  NoDup l ->
  List.length (filter (fun x => Nat.eqb x np) l)
  = if existsb (Nat.eqb np) l then 1%nat else 0%nat.
Proof.
  induction 1 as [|x l Hnotin Hnd IH]; [reflexivity|].
  cbn [filter existsb]. rewrite (Nat.eqb_sym np x).
  destruct (Nat.eqb x np) eqn:E; cbn [orb List.length].
  - apply Nat.eqb_eq in E. subst x. rewrite IH.
    destruct (existsb (Nat.eqb np) l) eqn:Hex; [|reflexivity].
    apply existsb_eqb_In in Hex. contradiction.
  - exact IH.
Qed.

Lemma filter_none (A : Type) (f : A -> bool) (l : list A) :
  (forall x, In x l -> f x = false) -> filter f l = [].
Proof.
  induction l as [|x l IH]; intro H; [reflexivity|]. cbn [filter].
  rewrite (H x (or_introl eq_refl)). apply IH.
  intros y Hy. apply H. right. exact Hy.
Qed.

Lemma count_shown (sims : ref -> list NumericalPath) (np : NumericalPath)
    (l : list memObjects) :
  (forall m, In m l -> sims (dispPath m) = [simObj m]) ->
  List.length (filter (shows sims np) (map dispPath l))
  = List.length (filter (fun x => Nat.eqb x np) (map simObj l)).
Proof.
  induction l as [|m l IH]; intro H; [reflexivity|]. cbn [map filter].
  unfold shows at 1. rewrite (H m (or_introl eq_refl)).
  assert (IH' := IH (fun y Hy => H y (or_intror Hy))).
  destruct (Nat.eqb (simObj m) np); cbn [List.length]; rewrite IH';
    reflexivity.
Qed.

Lemma in_step_count (dl0 : DisplayList) (w : World) (np : NumericalPath) :
  in_step dl0 w ->
  List.length (displays_of w np)
  = if existsb (Nat.eqb np) (map simObj (memObjs_ w)) then 1%nat else 0%nat.
Proof.
  intros [Hw Hl Honce Hold]. unfold displays_of.
  rewrite (@filter_length_perm _ _ _ _ Hl), filter_app, length_app.
  rewrite (@filter_none _ _ (dl_toArray dl0)).
  - cbn [List.length]. rewrite Nat.add_0_r, <- (@count_once np _ Honce).
    apply count_shown. intros m Hm. apply mem_shows; assumption.
  - intros x Hx. unfold shows. destruct (Hold x Hx) as (_ & -> & _).
    reflexivity.
Qed.

(** The display list keeps in step with the SimList.  On a SimView whose
    display list [dl] shows no path when the PathObserver is made, and
    through any events: the paths remembered are those the events of the
    SimList leave, in the order they were added; the display list holds one
    DisplayPath for each of them beside the objects of [dl], none of which is
    ever removed; so a path has one DisplayPath when the events leave it in
    the SimList and none when they do not. *)
Theorem display_list_in_step (simList simView : Subject) (screen : ScreenRect)
    (dl : DisplayList) (h : ref -> option DisplayPath) (next : ref)
    (simRectSetter : bool) (opt_expand : option number) (es : list happening) :
  (forall d, In d (dl_toArray dl) ->
             (d < next)%nat /\ getSimObjects h d = []) ->
  let w := run (new_PathObserver simList simView screen dl h next
                  simRectSetter opt_expand) es in
  map simObj (memObjs_ w) = tracked simList es /\
  Permutation (dl_toArray (displayList_ w))
              (map dispPath (memObjs_ w) ++ dl_toArray dl) /\
  (forall np,
     List.length (displays_of w np)
     = if existsb (Nat.eqb np) (tracked simList es) then 1%nat else 0%nat).
Proof.
  intros Hold w.
  destruct (@in_step_run dl es _
              (@in_step_new simList simView screen dl h next simRectSetter
                 opt_expand Hold))
    as (Hs & Hmap).
  fold w in Hs, Hmap. change (map simObj (memObjs_ w) = tracked simList es) in Hmap.
  split; [exact Hmap|]. split; [apply (in_step_listed Hs)|].
  intro np. rewrite <- Hmap. apply in_step_count with dl. exact Hs.
Qed.

End Model.

(** *** A DisplayList to run the model on *)

(** The display list as a plain array of references: [find] returns the
    first object whose first SimObject is the path, [add] appends, [remove]
    drops the first occurrence. *)
Definition array_find (dl : list ref) (sims : ref -> list NumericalPath)
    (np : NumericalPath) : option ref :=
  find (fun d => match sims d with x :: _ => Nat.eqb x np | [] => false end) dl.

Definition array_add (dl : list ref) (d : ref) : list ref := dl ++ [d].

Fixpoint array_remove (dl : list ref) (d : ref) : list ref :=
  match dl with
  | [] => []
  | x :: dl' => if Nat.eqb x d then dl' else x :: array_remove dl' d
  end.

Definition array_toArray (dl : list ref) : list ref := dl.

(** Rectangles and points kept as the expressions that made them. *)
Inductive rect : Type :=
| BoundsOf (np : NumericalPath)
| Scaled (r : rect) (factor : number)
| Centered (center : rect) (width height : number)
| Union (r1 r2 : rect).

Lemma array_find_none (dl : list ref) (sims : ref -> list NumericalPath)
    (np : NumericalPath) :
  array_find dl sims np = None ->
  forall d, In d (array_toArray dl) -> sims d <> [np].
Proof.
  intros Hnone d Hd Hs.
  pose proof (List.find_none _ _ Hnone d Hd) as Hf. cbv beta in Hf.
  rewrite Hs, Nat.eqb_refl in Hf. discriminate.
Qed.

Lemma array_add_toArray (dl : list ref) (d : ref) :
  Permutation (array_toArray (array_add dl d)) (d :: array_toArray dl).
Proof. apply Permutation_sym, Permutation_cons_append. Qed.

Lemma array_remove_toArray (dl : list ref) (d : ref) :
  exists gone,
    Permutation (array_toArray dl) (gone ++ array_toArray (array_remove dl d)).
Proof.
  unfold array_toArray. induction dl as [|x dl (gone & IH)]; simpl.
  - exists []. constructor.
  - destruct (Nat.eqb x d).
    + exists [x]. apply Permutation_refl.
    + exists gone. apply Permutation_cons_app. assumption.
Qed.

(** A PathObserver on an empty SimView, with a [simRectSetter]. *)
Definition sample_observer : World nat rect (list ref) :=
  new_PathObserver rect 1%nat 2%nat 0%nat [] (fun _ => None) 0%nat true None.

Definition sample_run (w : World nat rect (list ref)) (es : list (happening nat))
  : World nat rect (list ref) :=
  run BoundsOf Scaled (fun _ => false) (fun r => r) Centered Union
      array_find array_add array_remove w es.

Definition path_added (np : NumericalPath) : happening nat :=
  Observe nat (mkEvent 1%nat OBJECT_ADDED (aNumericalPath np)).
Definition path_removed (np : NumericalPath) : happening nat :=
  Observe nat (mkEvent 1%nat OBJECT_REMOVED (aNumericalPath np)).

Lemma addPath_never_duplicates_witness :
  sample_run sample_observer [path_added 5%nat; path_added 5%nat]
    = sample_run sample_observer [path_added 5%nat] /\
  displays_of array_toArray
    (sample_run sample_observer
       [path_added 5%nat; path_added 5%nat; path_added 6%nat;
        ScreenRectChanged 3%nat; path_removed 5%nat; path_added 5%nat;
        path_added 6%nat]) 5%nat = (5 :: nil)%nat /\
  (List.length
     (displays_of array_toArray
        (sample_run sample_observer
           [path_added 5%nat; path_added 5%nat; path_added 6%nat;
            ScreenRectChanged 3%nat; path_removed 5%nat; path_added 5%nat;
            path_added 6%nat]) 5%nat) <= 1)%nat.
Proof.
  destruct (@addPath_never_duplicates nat rect rect (list ref)
              BoundsOf Scaled (fun _ => false) (fun r => r) Centered Union
              array_find array_add array_remove array_toArray
              array_find_none array_add_toArray array_remove_toArray)
    as (Hsame & _ & Hone).
  split; [|split].
  - assert (Hfound :
      array_find
        (displayList_ (sample_run sample_observer [path_added 5%nat]))
        (getSimObjects (heap (sample_run sample_observer [path_added 5%nat])))
        5%nat <> None) by (vm_compute; discriminate).
    exact (proj2 (Hsame _ 5%nat Hfound)).
  - reflexivity.
  - apply (Hone 1%nat 2%nat 0%nat [] (fun _ => None) 0%nat true None).
    + intros d [].
    + intro np. simpl. lia.
Defined.

(** *** More runs on the array *)

Lemma array_find_some (dl : list ref) (sims : ref -> list NumericalPath)
    (np : NumericalPath) (d : ref) :
  array_find dl sims np = Some d ->
  In d (array_toArray dl) /\ exists rest, sims d = np :: rest.
Proof.
  intro Hfound. apply List.find_some in Hfound. destruct Hfound as (Hd & Hs).
  split; [exact Hd|].
  destruct (sims d) as [|x rest]; [discriminate|].
  apply Nat.eqb_eq in Hs. subst x. exists rest. reflexivity.
Qed.

Lemma array_remove_listed (dl : list ref) (d : ref) :
  In d (array_toArray dl) ->
  Permutation (array_toArray dl) (d :: array_toArray (array_remove dl d)).
Proof.
  unfold array_toArray. induction dl as [|x dl IH]; intro Hd; [destruct Hd|].
  cbn [array_remove]. destruct (Nat.eqb x d) eqn:E.
  - apply Nat.eqb_eq in E. subst x. apply Permutation_refl.
  - destruct Hd as [Heq | Hd]; [subst x; rewrite Nat.eqb_refl in E; discriminate|].
    eapply perm_trans; [apply perm_skip, IH, Hd | apply perm_swap].
Qed.

(** A PathObserver without a [simRectSetter], on a SimView that already
    shows one object, which is no path. *)
Definition busy_observer : World nat rect (list ref) :=
  new_PathObserver rect 1%nat 2%nat 0%nat (0 :: nil)%nat (fun _ => None) 1%nat
                   false None.

Definition busy_events : list (happening nat) :=
  [path_added 5%nat; path_added 6%nat; path_added 5%nat;
   ScreenRectChanged 3%nat; path_removed 5%nat; path_removed 7%nat;
   path_added 8%nat; ScreenRectChanged 4%nat].

Definition busy_run : World nat rect (list ref) :=
  sample_run busy_observer busy_events.

Lemma remembered_paths_are_current_witness :
  In (mkMem 6%nat (mkObserver 5%nat 4%nat) 4%nat) (memObjs_ busy_run) /\
  exists p,
    heap busy_run 4%nat = Some p /\
    dp_paths p = (6 :: nil)%nat /\
    dp_screenRect p = Some 4%nat /\
    dp_proto p = Some 1%nat.
Proof.
  split; [vm_compute; left; reflexivity|].
  pose proof (@remembered_paths_are_current nat rect rect (list ref)
                BoundsOf Scaled (fun _ => false) (fun r => r) Centered Union
                array_find array_add array_remove
                1%nat 2%nat 0%nat (0 :: nil)%nat (fun _ => None) 1%nat false
                None busy_events (mkMem 6%nat (mkObserver 5%nat 4%nat) 4%nat))
    as H.
  cbv zeta in H.
  destruct H as (p & Hp & Hpaths & Hrect & Hproto & _);
    [vm_compute; left; reflexivity|].
  exists p. split; [exact Hp|]. split; [exact Hpaths|].
  split; [exact Hrect | exact Hproto].
Defined.

Lemma no_simRectSetter_no_resize_witness :
  simRectSetter_ busy_observer = false /\ simRectCalls busy_run = [].
Proof.
  split; [reflexivity|].
  pose proof (@no_simRectSetter_no_resize nat rect rect (list ref)
                BoundsOf Scaled (fun _ => false) (fun r => r) Centered Union
                array_find array_add array_remove busy_observer busy_events)
    as H.
  apply H. reflexivity.
Defined.

Lemma display_list_in_step_witness :
  map simObj (memObjs_ busy_run) = (6 :: 8 :: nil)%nat /\
  Permutation (array_toArray (displayList_ busy_run))
              (map dispPath (memObjs_ busy_run) ++ (0 :: nil)%nat) /\
  List.length (displays_of array_toArray busy_run 5%nat) = 0%nat /\
  List.length (displays_of array_toArray busy_run 6%nat) = 1%nat.
Proof.
  pose proof (@display_list_in_step nat rect rect (list ref)
                BoundsOf Scaled (fun _ => false) (fun r => r) Centered Union
                array_find array_add array_remove array_toArray
                array_find_none array_add_toArray array_find_some
                array_remove_listed
                1%nat 2%nat 0%nat (0 :: nil)%nat (fun _ => None) 1%nat false
                None busy_events) as H.
  cbv zeta in H.
  destruct H as (Hmem & Hlisted & Hcount).
  { intros d [<- | []]. split; [lia | reflexivity]. }
  split; [exact Hmem|]. split; [exact Hlisted|].
  split; [exact (Hcount 5%nat) | exact (Hcount 6%nat)].
Defined.

End PathObserver.
